(** * printer: output assembly and formatting of generated code

    A shallow embedding of [printer/print.go]: the header writers, the import
    deduplication, [generate], [format], [goformat] and [PrintFile], with the
    properties of the specification proved about them.

    Go strings and byte slices are both sequences of bytes; they are modelled
    by [string] (a list of 8-bit characters).  A [*bytes.Buffer] is modelled by
    the bytes written to it so far, and a writer takes the buffer and returns
    the extended one. *)

From Stdlib Require Import ZArith NArith Ascii String List Lia.
From stdpp Require Import base gmap strings list.

Local Open Scope Z_scope.
Local Open Scope stdpp_scope.

(** ** Characters that a Go literal writes with an escape *)

Definition nl : string := String "010"%char EmptyString.
Definition tab : string := String "009"%char EmptyString.
Definition dquote : ascii := "034"%char.
Definition dq : string := String dquote EmptyString.
Definition backslash : ascii := "092"%char.

(** ** Go values the code manipulates *)

(** An [error] value is identified with its message. *)
Definition error : Type := string.

(** What a runtime panic carries.  [index_out_of_range i n] is the runtime
    error raised by [s[i]] on a string of length [n] when [i] is not in
    [0 .. n-1]. *)
Inductive panic_value : Type :=
  | index_out_of_range (i : Z) (n : Z).

(** The outcome of a call that either returns or panics. *)
Inductive go_result (A : Type) : Type :=
  | Returns (a : A)
  | Panics (p : panic_value).
Arguments Returns {A} a.
Arguments Panics {A} p.

Definition go_bind {A B} (r : go_result A) (k : A -> go_result B) : go_result B :=
  match r with
  | Returns a => k a
  | Panics p => Panics p
  end.

#[global] Instance go_result_ret : MRet go_result := fun _ a => Returns a.
#[global] Instance go_result_bind : MBind go_result := fun _ _ k r => go_bind r k.

(** ** The part of package [strings] that the code calls *)

Module strings.

Definition len (s : string) : Z := Z.of_nat (String.length s).

(** [s[i:]] and [s[:i]] for [0 <= i <= len s]. *)
Definition slice_from (s : string) (i : nat) : string :=
  String.substring i (String.length s - i) s.
Definition slice_to (s : string) (i : nat) : string :=
  String.substring 0 i s.

(** [HasSuffix]: [len(s) >= len(suffix) && s[len(s)-len(suffix):] == suffix]. *)
Definition HasSuffix (s suffix : string) : bool :=
  (String.length suffix <=? String.length s)%nat
  && String.eqb (slice_from s (String.length s - String.length suffix)) suffix.

(** [TrimSuffix]: [s] without the given trailing suffix, [s] itself when it
    does not end with it. *)
Definition TrimSuffix (s suffix : string) : string :=
  if HasSuffix s suffix
  then slice_to s (String.length s - String.length suffix)
  else s.

(** [Join]: the elements separated by [sep]. *)
Fixpoint Join (elems : list string) (sep : string) : string :=
  match elems with
  | [] => EmptyString
  | [e] => e
  | e :: rest => e +:+ sep +:+ Join rest sep
  end.

End strings.

(** [s[i]] for a Go [int] index: a panic outside [0 .. len s - 1]. *)
Definition string_index (s : string) (i : Z) : go_result ascii :=
  if (i <? 0) || (strings.len s <=? i) then
    Panics (index_out_of_range i (strings.len s))
  else
    match String.get (Z.to_nat i) s with
    | Some c => Returns c
    | None => Panics (index_out_of_range i (strings.len s))
    end.

(** ** [bytes.Buffer] *)

Module bytes.

Definition Buffer : Type := string.

(** A buffer with nothing written yet ([bytes.NewBuffer] on an empty slice). *)
Definition NewBuffer : Buffer := EmptyString.
Definition WriteString (b : Buffer) (s : string) : Buffer := b +:+ s.
Definition WriteByte (b : Buffer) (c : ascii) : Buffer := b +:+ String c EmptyString.
Definition Write (b : Buffer) (p : string) : Buffer := b +:+ p.
Definition Bytes (b : Buffer) : string := b.

End bytes.

(** ** Header writers *)

(** The generated-code marker, without its line end. *)
Definition generated_marker : string :=
  "// Code generated by github.com/algorand/msgp DO NOT EDIT.".

Definition writePkgHeader (b : bytes.Buffer) (name : string) : bytes.Buffer :=
  let b := bytes.WriteString b "package " in
  let b := bytes.WriteString b name in
  let b := bytes.WriteByte b "010"%char in
  bytes.WriteString b (generated_marker +:+ nl +:+ nl).

Definition writeBuildHeader (b : bytes.Buffer) (buildHeaders : list string) : bytes.Buffer :=
  let headers :=
    "//go:build " +:+ strings.Join buildHeaders " " +:+ nl +:+
    "// +build " +:+ strings.Join buildHeaders " " +:+ nl +:+ nl in
  bytes.WriteString b headers.

(** ** The file description handed over by the parser *)

(** [ast.ImportSpec], with the two fields the code reads: [Name] is the
    alias ([nil] when there is none) and [Path] is [Path.Value], the path
    literal as it stands in the source, quotes included. *)
Record ImportSpec : Type := {
  Name : option string;
  Path : string;
}.

(** Modelled from the spec: [gen.Method], declared in the package [gen] of
    the repository, whose source is not at hand.  The generation mode is a
    set of flags in an unsigned integer, tested bit by bit. *)
Definition Method : Type := Z.

(** Modelled from the spec: what a call of [PrintTo], a method of
    [parse.FileSet] whose source is not at hand, leaves behind.  Given the
    sinks for topic, body and test-body text it populates them or fails: the
    bytes it wrote to the topics sink, to the body sink and to the test
    sink, and the error it returned. *)
Record PrintOutput : Type := {
  topics_Bytes : string;
  funcbuf_Bytes : string;
  tests_Bytes : string;
  PrintTo_err : option error;
}.

(** Modelled from the spec: [parse.FileSet], declared in the package [parse]
    of the repository, whose source is not at hand, with what this package
    uses of it: the package name, the import declarations in order, and the
    capability [PrintTo].  [PrintTo] receives the printer
    [gen.NewPrinter(mode, &topics, funcbuf, testwr)]; the two first sinks
    are fresh, so that the call is determined by the mode and by whether
    [testwr] is a writer ([true]) or [nil] ([false]). *)
Record FileSet : Type := {
  Package : string;
  Imports : list ImportSpec;
  PrintTo : Method -> bool -> PrintOutput;
}.

(** ** Calls that leave the package *)

(** The configuration handed to [gci.WriteFormattedFiles]. *)
Module sections.
Inductive SectionSpec : Type :=
  | StandardPackage
  | DefaultSection
  | Prefix (ImportPrefix : string)
  | NewLine.
End sections.

Module gci.
Definition SectionList : Type := list sections.SectionSpec.
Record GciConfiguration : Type := {
  Sections : SectionList;
  SectionSeparators : SectionList;
}.
End gci.

(** A channel of errors is named by a number. *)
Definition chan : Type := nat.

(** The one function literal started with [go]: the body of [goformat], with
    its three arguments and the [skipFormat] it captures. *)
Inductive closure : Type :=
  | goformat_func (file : string) (data : string) (end_ : chan) (skipFormat : bool).

(** The calls to other packages and the channel and goroutine statements,
    each with the type of what it gives back.  [imports.Process] is always
    called with [nil] options; an [error] is [None] for [nil]. *)
Inductive event : Type -> Type :=
  | imports_Process (filename : string) (src : string) : event (string * option error)
  | ioutil_WriteFile (filename : string) (data : string) (perm : N) : event (option error)
  | gci_WriteFormattedFiles (paths : list string) (cfg : gci.GciConfiguration)
      : event (option error)
  | fmt_Printf (format : string) (a : list string) : event unit
  | make_chan (size : nat) : event chan
  | go_stmt (g : closure) : event unit
  | chan_send (c : chan) (v : option error) : event unit
  | chan_recv (c : chan) : event (option error).

(** A function body with effects: it returns, panics, or makes a call and
    goes on with the answer. *)
Inductive prog (R : Type) : Type :=
  | Ret (r : R)
  | Throw (p : panic_value)
  | Vis {X : Type} (e : event X) (k : X -> prog R).
Arguments Ret {R} r.
Arguments Throw {R} p.
Arguments Vis {R X} e k.

Fixpoint prog_bind {A B} (k : A -> prog B) (p : prog A) : prog B :=
  match p with
  | Ret a => k a
  | Throw v => Throw v
  | Vis e h => Vis e (fun x => prog_bind k (h x))
  end.

#[global] Instance prog_ret : MRet prog := fun _ r => Ret r.
#[global] Instance prog_mbind : MBind prog := fun _ _ k p => prog_bind k p.

Definition call {X} (e : event X) : prog X := Vis e Ret.

(** ** What a thread is seen to do *)

(** One finished call: the call and what came back. *)
Inductive obs : Type :=
  | did_Process (filename : string) (src : string) (r : string * option error)
  | did_WriteFile (filename : string) (data : string) (perm : N) (r : option error)
  | did_WriteFormattedFiles (paths : list string) (cfg : gci.GciConfiguration)
      (r : option error)
  | did_Printf (format : string) (a : list string)
  | did_make_chan (size : nat) (c : chan)
  | did_go (g : closure)
  | did_send (c : chan) (v : option error)
  | did_recv (c : chan) (v : option error).

Definition observe {X} (e : event X) : X -> obs :=
  match e in event X return X -> obs with
  | imports_Process filename src => did_Process filename src
  | ioutil_WriteFile filename data perm => did_WriteFile filename data perm
  | gci_WriteFormattedFiles paths cfg => did_WriteFormattedFiles paths cfg
  | fmt_Printf format a => fun _ => did_Printf format a
  | make_chan size => did_make_chan size
  | go_stmt g => fun _ => did_go g
  | chan_send c v => fun _ => did_send c v
  | chan_recv c => did_recv c
  end.

(** [runs p tr out]: the thread running [p] makes the calls of [tr], with
    the answers recorded there, and ends with [out].  The answers are
    whatever the rest of the world gives: other goroutines, the tools and the
    file system are not constrained. *)
Fixpoint runs {R} (p : prog R) (tr : list obs) (out : go_result R) : Prop :=
  match p with
  | Ret r => tr = [] /\ out = Returns r
  | Throw v => tr = [] /\ out = Panics v
  | Vis e k => exists x tr', tr = observe e x :: tr' /\ runs (k x) tr' out
  end.

(** The file mode [0600]. *)
Definition perm_0600 : N := 6 * 64.

(** ** The world the calls act on *)

(** A file: its bytes and its permission bits. *)
Record File : Type := {
  content : string;
  perm : N;
}.

(** The two tools and the storage, as functions of the files they find.
    [imports.Process] reads files and gives back bytes;
    [gci.WriteFormattedFiles] rewrites files in place.  [WriteFile_failure]
    tells whether a write of some bytes to a path fails, and then with
    which error and leaving which files behind ([None]: the write goes
    through). *)
Record Env : Type := {
  Process : string -> string -> gmap string File -> string * option error;
  WriteFormattedFiles :
    list string -> gci.GciConfiguration -> gmap string File ->
    gmap string File * option error;
  WriteFile_failure :
    string -> string -> gmap string File -> option (error * gmap string File);
}.

(** [ioutil.WriteFile] when it goes through: the file holds the data; a new
    file gets the permission bits asked for (the umask of the process left
    aside), an old one keeps its own. *)
Definition write_file (filename data : string) (p : N) (files : gmap string File)
  : gmap string File :=
  let bits := match files !! filename with
              | Some old => perm old
              | None => p
              end in
  <[filename := {| content := data; perm := bits |}]> files.

(** ** Counting a text in a buffer *)

(** The number of places of [s] at which the text [pat] starts. *)
Fixpoint occurrences (pat s : string) : nat :=
  match s with
  | EmptyString => 0
  | String c rest => (if String.prefix pat s then 1 else 0) + occurrences pat rest
  end.

(** The character [c] is none of the characters of [s]. *)
Fixpoint free_of (c : ascii) (s : string) : bool :=
  match s with
  | EmptyString => true
  | String x rest => negb (Ascii.eqb x c) && free_of c rest
  end.

(** ** The test file name in the words of the specification *)

(** The path [<path-without-extension>_test.<ext>].  The extension of a path
    is what follows the last dot of its last element; [ext_scan] reads the
    path from its end, collecting the extension until that dot.  A path
    whose last element has no dot has the empty extension. *)
Fixpoint ext_scan (reversed : string) (ext : string) : option (string * string) :=
  match reversed with
  | EmptyString => None
  | String c rest =>
      if Ascii.eqb c "."%char then Some (rest, ext)
      else if Ascii.eqb c "/"%char then None
      else ext_scan rest (String c ext)
  end.

Definition spec_test_path (path : string) : string :=
  match ext_scan (String.rev path) EmptyString with
  | Some (reversed_stem, ext) => String.rev reversed_stem +:+ "_test." +:+ ext
  | None => path +:+ "_test."
  end.

(** ** Inputs and surroundings to run the code on *)

(** [strconv.Quote] on a string of ASCII characters: the characters between
    double quotes, with a backslash before a double quote and a backslash,
    the short escapes of the control characters that have one, and [\x] and
    two hexadecimal digits for the other characters that do not print. *)
Definition hex_digit (n : N) : ascii :=
  if (n <? 10)%N then ascii_of_N (48 + n) else ascii_of_N (87 + n).

Definition quote_char (c : ascii) : string :=
  let n := N_of_ascii c in
  if Ascii.eqb c dquote then String backslash dq
  else if Ascii.eqb c backslash then String backslash (String backslash EmptyString)
  else if (32 <=? n)%N && (n <=? 126)%N then String c EmptyString
  else if (n =? 7)%N then "\a"
  else if (n =? 8)%N then "\b"
  else if (n =? 12)%N then "\f"
  else if (n =? 10)%N then "\n"
  else if (n =? 13)%N then "\r"
  else if (n =? 9)%N then "\t"
  else if (n =? 11)%N then "\v"
  else "\x" +:+ String (hex_digit (n / 16)) (String (hex_digit (n mod 16)) EmptyString).

Fixpoint quote_chars (s : string) : string :=
  match s with
  | EmptyString => EmptyString
  | String c rest => quote_char c +:+ quote_chars rest
  end.

Definition ascii_Quote (s : string) : string := dq +:+ quote_chars s +:+ dq.

(** A character that [strconv.Quote] leaves as it is. *)
Definition plain_char (c : ascii) : bool :=
  (32 <=? N_of_ascii c)%N && (N_of_ascii c <=? 126)%N
  && negb (Ascii.eqb c dquote) && negb (Ascii.eqb c backslash).

Fixpoint plain (s : string) : bool :=
  match s with
  | EmptyString => true
  | String c rest => plain_char c && plain rest
  end.

(** A runtime that visits the keys of a map in the order of its list of
    entries. *)
Definition entries_range (m : gmap string ()) : list string := (map_to_list m).*1.

(** The colour codes of a terminal around a string. *)
Definition magenta (s : string) : string :=
  String "027"%char "[35m" +:+ s +:+ String "027"%char "[39m".

(** The example of the specification: package [sample], the import ["fmt"],
    a body generator that emits [func Foo() {}]. *)
Definition sample_output : PrintOutput := {|
  topics_Bytes := EmptyString;
  funcbuf_Bytes := "func Foo() {}";
  tests_Bytes := EmptyString;
  PrintTo_err := None;
|}.

Definition sample_file : FileSet := {|
  Package := "sample";
  Imports := [ {| Name := None; Path := dq +:+ "fmt" +:+ dq |} ];
  PrintTo := fun _ _ => sample_output;
|}.

(** The same package when its source also imports the runtime package, as
    the sources that use its types do. *)
Definition msgp_user_file : FileSet := {|
  Package := "sample";
  Imports := [ {| Name := None; Path := dq +:+ "github.com/algorand/msgp/msgp" +:+ dq |} ];
  PrintTo := fun _ _ => sample_output;
|}.

(** A file whose body generator fails. *)
Definition failing_file : FileSet := {|
  Package := "sample";
  Imports := [ {| Name := None; Path := dq +:+ "fmt" +:+ dq |} ];
  PrintTo := fun _ _ => {|
    topics_Bytes := "var x";
    funcbuf_Bytes := "func F";
    tests_Bytes := "func T";
    PrintTo_err := Some "unknown type";
  |};
|}.

(** A file with an import whose path is the empty string. *)
Definition empty_import_file : FileSet := {|
  Package := "sample";
  Imports := [ {| Name := None; Path := EmptyString |} ];
  PrintTo := fun _ _ => sample_output;
|}.

(** Tools that do their work: the normalizer gives the bytes back with a
    line in front, the grouping tool leaves the files as they are, every
    write goes through. *)
Definition working_env : Env := {|
  Process := fun _ src _ => ("// normalized" +:+ nl +:+ src, None);
  WriteFormattedFiles := fun _ _ files => (files, None);
  WriteFile_failure := fun _ _ _ => None;
|}.

(** The directory of the target path does not exist: every write fails and
    leaves the files as they are. *)
Definition no_directory_env : Env := {|
  Process := fun _ src _ => (src, None);
  WriteFormattedFiles := fun _ _ files => (files, None);
  WriteFile_failure := fun filename _ files =>
    Some ("open " +:+ filename +:+ ": no such file or directory", files);
|}.

(** The grouping tool fails and touches nothing. *)
Definition grouping_fails_env : Env := {|
  Process := fun _ src _ => ("// normalized" +:+ nl +:+ src, None);
  WriteFormattedFiles := fun _ _ files => (files, Some "gci: cannot parse");
  WriteFile_failure := fun _ _ _ => None;
|}.

(** Writes to the test file are refused. *)
Definition readonly_tests_env : Env := {|
  Process := fun _ src _ => (src, None);
  WriteFormattedFiles := fun _ _ files => (files, None);
  WriteFile_failure := fun filename _ files =>
    if String.eqb filename "out_test.go"
    then Some ("open out_test.go: permission denied", files)
    else None;
|}.

Section Printer.

Set Default Proof Using "Type".

(** [strconv.Quote], which [fmt] applies for the verb [%q]: not part of the
    repository, taken as it comes.  The one thing used of it, where it is
    used, is what it does on plain text: the text between double quotes. *)
Variable strconv_Quote : string -> string.
Hypothesis Quote_plain :
  forall s, plain s = true -> strconv_Quote s = dq +:+ s +:+ dq.

(** The order in which [range] visits the keys of a map: left open by the
    language, here whatever the runtime picks for the map at hand, each key
    once. *)
Variable map_range : gmap string () -> list string.
Hypothesis map_range_perm : forall m, map_range m ≡ₚ (map_to_list m).*1.

(** The flag [gen.Test] of the generation mode, a constant of the package
    [gen] whose value is not at hand. *)
Variable gen_Test : Method.

(** [dedupImports]: the imports become the keys of a map, and the keys are
    collected in the order [range] yields them. *)
Definition dedupImports (imp : list string) : list string :=
  let m := foldl (fun m im => <[im := ()]> m) (∅ : gmap string ()) imp in
  foldl (fun r k => r ++ [k]) [] (map_range m).

(** The loop of [writeImportHeader]: one line per import, the import string
    as it is when it ends with a double quote (an alias followed by a
    quoted path, or a quoted path), quoted otherwise.  [im[len(im)-1]] is
    evaluated first, so an empty import string panics there. *)
Fixpoint writeImportLines (b : bytes.Buffer) (imports : list string) : go_result bytes.Buffer :=
  match imports with
  | [] => mret b
  | im :: rest =>
      c ← string_index im (strings.len im - 1);
      let b :=
        if Ascii.eqb c dquote
        then bytes.WriteString b (tab +:+ im +:+ nl)
        else bytes.WriteString b (tab +:+ strconv_Quote im +:+ nl) in
      writeImportLines b rest
  end.

Definition writeImportHeader (b : bytes.Buffer) (imports : list string) : go_result bytes.Buffer :=
  let b := bytes.WriteString b ("import (" +:+ nl) in
  b ← writeImportLines b imports;
  mret (bytes.WriteString b (")" +:+ nl +:+ nl)).

(** The import strings [generate] collects: the runtime import first, then
    one string per declared import, with its alias when it has one. *)
Definition myImports (f : FileSet) : list string :=
  foldl (fun acc imp =>
           match Name imp with
           | Some name => acc ++ [name +:+ " " +:+ Path imp]
           | None => acc ++ [Path imp]
           end)
        ["github.com/algorand/msgp/msgp"] (Imports f).

(** The imports of a generated test file. *)
Definition test_imports : list string :=
  [ "github.com/algorand/msgp/msgp";
    "github.com/algorand/go-algorand/protocol";
    "github.com/algorand/go-algorand/test/partitiontest";
    "testing" ].

(** [mode&gen.Test == gen.Test] *)
Definition wants_tests (mode : Method) : bool :=
  Z.land mode gen_Test =? gen_Test.

(** [generate]: the implementation buffer, the test buffer ([None] for
    [nil]) and the error of [PrintTo].  [testwr] is a writer exactly when
    the test buffer was made. *)
Definition generate (f : FileSet) (mode : Method)
  : go_result (bytes.Buffer * option bytes.Buffer * option error) :=
  let outbuf := writePkgHeader bytes.NewBuffer (Package f) in
  let dedup := dedupImports (myImports f) in
  outbuf ← writeImportHeader outbuf dedup;
  t ← (if wants_tests mode then
         let testbuf := writeBuildHeader bytes.NewBuffer ["!skip_msgp_testing"] in
         let testbuf := writePkgHeader testbuf (Package f) in
         testbuf ← writeImportHeader testbuf test_imports;
         mret (Some testbuf, true)
       else mret (None, false));
  let '(testbuf, testwr) := t in
  let printed := PrintTo f mode testwr in
  let testbuf := (fun b => bytes.Write b (tests_Bytes printed)) <$> testbuf in
  match PrintTo_err printed with
  | None =>
      let outbuf := bytes.Write outbuf (topics_Bytes printed) in
      let outbuf := bytes.Write outbuf (funcbuf_Bytes printed) in
      mret (outbuf, testbuf, None)
  | Some err => mret (outbuf, testbuf, Some err)
  end.

(** [chalk.Magenta.Color]: the format string wrapped in colour codes. *)
Variable chalk_Magenta_Color : string -> string.

Definition infof (s : string) (v : list string) : prog unit :=
  call (fmt_Printf (chalk_Magenta_Color s) v).

(** The section policy of [format]. *)
Definition format_config : gci.GciConfiguration := {|
  gci.Sections :=
    [ sections.StandardPackage;
      sections.DefaultSection;
      sections.Prefix "github.com/algorand";
      sections.Prefix "github.com/algorand/go-algorand" ];
  gci.SectionSeparators := [ sections.NewLine ];
|}.

Definition format (file : string) (data : string) (skipFormat : bool) : prog (option error) :=
  if skipFormat then
    call (ioutil_WriteFile file data perm_0600)
  else
    r ← call (imports_Process file data);
    match r.2 with
    | Some err => mret (Some err)
    | None =>
        err ← call (ioutil_WriteFile file r.1 perm_0600);
        match err with
        | Some err => mret (Some err)
        | None =>
            err ← call (gci_WriteFormattedFiles [file] format_config);
            match err with
            | Some err => mret (Some err)
            | None => mret None
            end
        end
    end.

(** The log line of a finished file: the format string and its argument. *)
Definition wrote_format : string :=
  ">>> Wrote and formatted " +:+ dq +:+ "%s" +:+ dq +:+ nl.

(** What the goroutine of [goformat] runs. *)
Definition closure_body (g : closure) : prog unit :=
  match g with
  | goformat_func file data end_ skipFormat =>
      r ← format file data skipFormat;
      _ ← call (chan_send end_ r);
      infof wrote_format [file]
  end.

Definition goformat (file : string) (data : string) (skipFormat : bool) : prog chan :=
  out ← call (make_chan 1);
  _ ← call (go_stmt (goformat_func file data out skipFormat));
  mret out.

(** The name of the test file. *)
Definition testfile_of (file : string) : string :=
  strings.TrimSuffix file ".go" +:+ "_test.go".

Definition PrintFile (file : string) (f : FileSet) (mode : Method) (skipFormat : bool)
  : prog (option error) :=
  match generate f mode with
  | Panics p => Throw p
  | Returns (_, _, Some err) => mret (Some err)
  | Returns (out, tests, None) =>
      res ← goformat file (bytes.Bytes out) skipFormat;
      let await : prog (option error) :=
        err ← call (chan_recv res);
        match err with
        | Some err => mret (Some err)
        | None => mret None
        end in
      match tests with
      | Some tests =>
          let testfile := testfile_of file in
          err ← format testfile (bytes.Bytes tests) skipFormat;
          match err with
          | Some err => mret (Some err)
          | None => _ ← infof wrote_format [testfile]; await
          end
      | None => await
      end
  end.

(** *** Running the threads *)

(** The files, what was printed (each [Printf] with its format string and
    arguments), the channels (capacity and queued values) and the
    goroutines started so far (what each has left to run). *)
Record World : Type := {
  fs : gmap string File;
  stdout : list (string * list string);
  chans : list (nat * list (option error));
  goroutines : list (prog unit);
}.

Definition set_fs (files : gmap string File) (w : World) : World :=
  {| fs := files; stdout := stdout w; chans := chans w; goroutines := goroutines w |}.
Definition set_chans (cs : list (nat * list (option error))) (w : World) : World :=
  {| fs := fs w; stdout := stdout w; chans := cs; goroutines := goroutines w |}.
Definition set_goroutines (gs : list (prog unit)) (w : World) : World :=
  {| fs := fs w; stdout := stdout w; chans := chans w; goroutines := gs |}.
Definition print_line (line : string * list string) (w : World) : World :=
  {| fs := fs w; stdout := stdout w ++ [line]; chans := chans w;
     goroutines := goroutines w |}.

Variable env : Env.

(** One call: its answer and the world after it, [None] when the call has
    to wait (a receive on an empty channel, a send on a full one; the code
    makes buffered channels only). *)
Definition handle {X} (e : event X) (w : World) : option (X * World) :=
  match e in event X return option (X * World) with
  | imports_Process filename src => Some (Process env filename src (fs w), w)
  | ioutil_WriteFile filename data p =>
      match WriteFile_failure env filename data (fs w) with
      | Some (err, files) => Some (Some err, set_fs files w)
      | None => Some (None, set_fs (write_file filename data p (fs w)) w)
      end
  | gci_WriteFormattedFiles paths cfg =>
      let r := WriteFormattedFiles env paths cfg (fs w) in
      Some (r.2, set_fs r.1 w)
  | fmt_Printf format a => Some (tt, print_line (format, a) w)
  | make_chan size => Some (length (chans w), set_chans (chans w ++ [(size, [])]) w)
  | go_stmt g => Some (tt, set_goroutines (goroutines w ++ [closure_body g]) w)
  | chan_send c v =>
      match chans w !! c with
      | Some (size, queue) =>
          if decide (length queue < size)%nat
          then Some (tt, set_chans (<[c := (size, queue ++ [v])]> (chans w)) w)
          else None
      | None => None
      end
  | chan_recv c =>
      match chans w !! c with
      | Some (size, v :: queue) => Some (v, set_chans (<[c := (size, queue)]> (chans w)) w)
      | _ => None
      end
  end.

(** How a thread left alone ends. *)
Inductive status (R : Type) : Type :=
  | Done (r : R)
  | Panicked (v : panic_value)
  | Blocked.
#[global] Arguments Done {R} r.
#[global] Arguments Panicked {R} v.
#[global] Arguments Blocked {R}.

(** One thread run as far as it gets, nothing else moving meanwhile. *)
Fixpoint exec {R} (p : prog R) (w : World) : World * status R :=
  match p with
  | Ret r => (w, Done r)
  | Throw v => (w, Panicked v)
  | Vis e k =>
      match handle e w with
      | Some (x, w') => exec (k x) w'
      | None => (w, Blocked)
      end
  end.

(** The threads of a call: the caller and the goroutines of the world. *)
Inductive thread : Type :=
  | caller
  | goroutine (i : nat).

(** One call made by the chosen thread; [None] when that thread has ended
    or has to wait. *)
Definition step {R} (t : thread) (m : prog R * World) : option (prog R * World) :=
  match t with
  | caller =>
      match m.1 with
      | Vis e k =>
          match handle e m.2 with
          | Some (x, w') => Some (k x, w')
          | None => None
          end
      | _ => None
      end
  | goroutine i =>
      match goroutines m.2 !! i with
      | Some (Vis e k) =>
          match handle e m.2 with
          | Some (x, w') => Some (m.1, set_goroutines (<[i := k x]> (goroutines w')) w')
          | None => None
          end
      | _ => None
      end
  end.

(** The threads taken in the order of a schedule; a thread that cannot
    move when its turn comes is passed over. *)
Definition run {R} (schedule : list thread) (m : prog R * World) : prog R * World :=
  foldl (fun m t => default m (step t m)) m schedule.

(** A world with no file, nothing printed, no channel and no goroutine. *)
Definition empty_world : World :=
  {| fs := ∅; stdout := []; chans := []; goroutines := [] |}.

(** A schedule for one call of [PrintFile] with a test file, formatting on:
    the caller makes the channel and starts the goroutine; the goroutine
    runs to its end (three calls of [format] at most, the send, the log
    line); the caller formats the test file, prints its line and receives. *)
Definition goroutine_first : list thread :=
  [caller; caller] ++ replicate 5 (goroutine 0) ++ replicate 5 caller.

(** *** Words for the statements *)

(** The line [writeImportHeader] writes for one import string. *)
Definition import_line (im : string) : string :=
  match String.get (String.length im - 1) im with
  | Some c => if Ascii.eqb c dquote then tab +:+ im +:+ nl
              else tab +:+ strconv_Quote im +:+ nl
  | None => tab +:+ strconv_Quote im +:+ nl
  end.

Fixpoint import_lines (imports : list string) : string :=
  match imports with
  | [] => EmptyString
  | im :: rest => import_line im +:+ import_lines rest
  end.

(** The import block: the opening line, the lines, the closing line and
    an empty line. *)
Definition import_block (imports : list string) : string :=
  "import (" +:+ nl +:+ import_lines imports +:+ ")" +:+ nl +:+ nl.

(** The package header: the package clause and, on the next line, the
    marker, then an empty line. *)
Definition package_header (name : string) : string :=
  "package " +:+ name +:+ nl +:+ generated_marker +:+ nl +:+ nl.

(** The build header of a test file. *)
Definition build_header : string :=
  "//go:build !skip_msgp_testing" +:+ nl +:+
  "// +build !skip_msgp_testing" +:+ nl +:+ nl.

(** The import string of a declared import. *)
Definition import_string (imp : ImportSpec) : string :=
  match Name imp with
  | Some name => name +:+ " " +:+ Path imp
  | None => Path imp
  end.

(** A call that names files names only [path], and writes with the bits
    [0600]. *)
Definition stays_on (path : string) (o : obs) : Prop :=
  match o with
  | did_Process filename _ _ => filename = path
  | did_WriteFile filename _ p _ => filename = path /\ p = perm_0600
  | did_WriteFormattedFiles paths _ _ => paths = [path]
  | _ => True
  end.

(** The claim that the test file lies at the path of the specification:
    whenever there is a test buffer, the caller's thread writes and formats
    no other file than that one. *)
Definition test_file_at_spec_path : Prop :=
  forall file f mode skipFormat out tests tr r,
    generate f mode = Returns (out, Some tests, None) ->
    runs (PrintFile file f mode skipFormat) tr r ->
    forall filename data p e,
      did_WriteFile filename data p e ∈ tr -> filename = spec_test_path file.

(** Opens [PrintFile] on the buffers [generate] returned, leaving [format]
    and the test file name folded. *)
Ltac open_PrintFile Hgen :=
  unfold PrintFile; rewrite Hgen;
  unfold goformat, infof, call, bytes.Bytes, mbind, mret, prog_mbind, prog_ret;
  cbn -[format testfile_of].

(** *** Words for the threads of [PrintFile] *)

(** What [PrintFile] runs once [generate] has returned its buffers without
    error: [goformat], then the test file if there is one, then the
    receive. *)
Definition await (c : chan) : prog (option error) :=
  Vis (chan_recv c)
      (fun err => match err with
                  | Some err => Ret (Some err)
                  | None => Ret None
                  end).

Definition after_test (c : chan) (testfile : string) (err : option error)
  : prog (option error) :=
  match err with
  | Some err => Ret (Some err)
  | None => Vis (fmt_Printf (chalk_Magenta_Color wrote_format) [testfile]) (fun _ => await c)
  end.

Definition join_caller (file : string) (tests : option bytes.Buffer) (skipFormat : bool)
    (c : chan) : prog (option error) :=
  match tests with
  | Some tests =>
      prog_bind (after_test c (testfile_of file))
                (format (testfile_of file) tests skipFormat)
  | None => await c
  end.

Definition join_go (file : string) (out : bytes.Buffer) (tests : option bytes.Buffer)
    (skipFormat : bool) (c : chan) : prog (option error) :=
  Vis (go_stmt (goformat_func file out c skipFormat))
      (fun _ => join_caller file tests skipFormat c).

Definition join (file : string) (out : bytes.Buffer) (tests : option bytes.Buffer)
    (skipFormat : bool) : prog (option error) :=
  Vis (make_chan 1) (join_go file out tests skipFormat).

(** A call to a tool, to the storage or to the printer. *)
Definition is_io {X} (e : event X) : Prop :=
  match e with
  | imports_Process _ _ | ioutil_WriteFile _ _ _
  | gci_WriteFormattedFiles _ _ | fmt_Printf _ _ => True
  | _ => False
  end.

Definition is_recv (c : chan) {X} (e : event X) : Prop :=
  match e with
  | chan_recv c' => c' = c
  | _ => False
  end.

Definition is_send (c : chan) {X} (e : event X) : Prop :=
  match e with
  | chan_send c' _ => c' = c
  | _ => False
  end.

(** A program of such calls only, that ends by returning. *)
Fixpoint io_only {R} (p : prog R) : Prop :=
  match p with
  | Ret _ => True
  | Throw _ => False
  | Vis e k => is_io e /\ forall x, io_only (k x)
  end.

(** A program of such calls that then returns, or receives once from the
    channel [c] and returns. *)
Fixpoint awaits (c : chan) (p : prog (option error)) : Prop :=
  match p with
  | Ret _ => True
  | Throw _ => False
  | Vis e k =>
      (is_io e /\ forall x, awaits c (k x))
      \/ (is_recv c e /\ forall x, exists r, k x = Ret r)
  end.

(** A program of such calls that then sends once on the channel [c] and
    goes on with such calls only. *)
Fixpoint sends (c : chan) (p : prog unit) : Prop :=
  match p with
  | Ret _ => False
  | Throw _ => False
  | Vis e k =>
      (is_io e /\ forall x, sends c (k x))
      \/ (is_send c e /\ forall x, io_only (k x))
  end.

(** A program that makes [n] calls at most. *)
Fixpoint within (n : nat) {R} (p : prog R) {struct p} : Prop :=
  match p with
  | Vis e k =>
      match n with
      | O => False
      | S n' => forall x, within n' (k x)
      end
  | _ => True
  end.

Definition is_final {R} (p : prog R) : Prop :=
  match p with
  | Vis _ _ => False
  | _ => True
  end.

(** The caller and the one goroutine after the [go] statement, with the
    channel [c] between them: the goroutine has its send ahead and the
    channel is empty, or it has sent and the value is in the channel or was
    received by the caller, who then returned.  The caller has [nc] calls
    left at most, the goroutine [ng]. *)
Definition started (c : chan) (nc ng : nat) (m : prog (option error) * World) : Prop :=
  exists g queue,
    goroutines m.2 = [g]
    /\ chans m.2 !! c = Some (1%nat, queue)
    /\ within nc m.1 /\ within ng g
    /\ ((sends c g /\ queue = [] /\ awaits c m.1)
        \/ (io_only g
            /\ (((exists v, queue = [v]) /\ awaits c m.1)
                \/ (queue = [] /\ exists r, m.1 = Ret r)))).

(** The states of a call of [PrintFile] whose [generate] returned the
    buffers [out] and [tests], from a world [w0] without goroutines. *)
Definition reach (file : string) (out : bytes.Buffer) (tests : option bytes.Buffer)
    (skipFormat : bool) (w0 : World) (m : prog (option error) * World) : Prop :=
  m = (join file out tests skipFormat, w0)
  \/ m = (join_go file out tests skipFormat (length (chans w0)),
          set_chans (chans w0 ++ [(1%nat, [])]) w0)
  \/ exists nc ng, (nc <= 5)%nat /\ (ng <= 5)%nat /\ started (length (chans w0)) nc ng m.

(** A schedule that lets a call of [PrintFile] come to its end from
    wherever it stands: the caller up to its second call, the goroutine to
    its end, the caller to its end. *)
Definition completion : list thread :=
  [caller; caller] ++ replicate 5 (goroutine 0) ++ replicate 7 caller.

(** Where the caller and the goroutine stand when formatting is skipped. *)
Inductive caller_pos : Type :=
  | c_write
  | c_line
  | c_recv
  | c_failed (e : error)
  | c_got (r : option error).

Inductive goroutine_pos : Type :=
  | g_write
  | g_send (r : option error)
  | g_line (r : option error)
  | g_done (r : option error).

Definition caller_prog (file : string) (tests : option bytes.Buffer) (c : chan)
    (cp : caller_pos) : prog (option error) :=
  match cp with
  | c_write =>
      Vis (ioutil_WriteFile (testfile_of file) (default EmptyString tests) perm_0600)
          (after_test c (testfile_of file))
  | c_line => after_test c (testfile_of file) None
  | c_recv => await c
  | c_failed e => Ret (Some e)
  | c_got r => Ret r
  end.

Definition goroutine_prog (file : string) (out : bytes.Buffer) (c : chan)
    (gp : goroutine_pos) : prog unit :=
  match gp with
  | g_write => closure_body (goformat_func file out c true)
  | g_send r => Vis (chan_send c r) (fun _ => infof wrote_format [file])
  | g_line _ => infof wrote_format [file]
  | g_done _ => Ret tt
  end.

(** What the goroutine has sent, and what its [format] has returned. *)
Definition sent (gp : goroutine_pos) : option (option error) :=
  match gp with
  | g_line r | g_done r => Some r
  | _ => None
  end.

Definition formatted (gp : goroutine_pos) : option (option error) :=
  match gp with
  | g_write => None
  | g_send r | g_line r | g_done r => Some r
  end.

Definition queue_of (cp : caller_pos) (gp : goroutine_pos) : list (option error) :=
  match sent gp, cp with
  | Some _, c_got _ => []
  | Some v, _ => [v]
  | None, _ => []
  end.

Definition test_written (cp : caller_pos) : Prop :=
  match cp with
  | c_line | c_recv | c_got _ => True
  | _ => False
  end.

Definition test_failed (cp : caller_pos) : Prop :=
  match cp with
  | c_failed _ => True
  | _ => False
  end.

(** With formatting skipped: the goroutine and the channel are as the two
    positions say; a write that went through is on disk as long as the
    other thread's write has not failed. *)
Definition join_inv (file : string) (out : bytes.Buffer) (tests : option bytes.Buffer)
    (c : chan) (cp : caller_pos) (gp : goroutine_pos) (w : World) : Prop :=
  goroutines w = [goroutine_prog file out c gp]
  /\ chans w !! c = Some (1%nat, queue_of cp gp)
  /\ (formatted gp = Some None -> ~ test_failed cp ->
      content <$> fs w !! file = Some out)
  /\ (test_written cp -> (forall e, formatted gp <> Some (Some e)) ->
      forall t, tests = Some t -> content <$> fs w !! testfile_of file = Some t)
  /\ (forall r, cp = c_got r -> sent gp = Some r)
  /\ (cp = c_write -> is_Some tests).

(** The states of a call of [PrintFile] with formatting skipped, whose
    [generate] returned the buffers [out] and [tests], from a world [w0]
    without goroutines. *)
Definition reach_skip (file : string) (out : bytes.Buffer) (tests : option bytes.Buffer)
    (w0 : World) (m : prog (option error) * World) : Prop :=
  m = (join file out tests true, w0)
  \/ m = (join_go file out tests true (length (chans w0)),
          set_chans (chans w0 ++ [(1%nat, [])]) w0)
  \/ exists cp gp,
       m.1 = caller_prog file tests (length (chans w0)) cp
       /\ join_inv file out tests (length (chans w0)) cp gp m.2.

(** ** Facts about strings *)

Lemma string_app_nil_l (b : string) : EmptyString +:+ b = b.
Proof. reflexivity. Qed.

Lemma string_app_cons (x : ascii) (a b : string) :
  String x a +:+ b = String x (a +:+ b).
Proof. reflexivity. Qed.

Lemma string_app_assoc (a b c : string) : (a +:+ b) +:+ c = a +:+ b +:+ c.
Proof.
  induction a as [|x a IH]; [done|].
  by rewrite !string_app_cons, IH.
Qed.

Lemma string_app_nil_r (a : string) : a +:+ EmptyString = a.
Proof.
  induction a as [|x a IH]; [done|].
  by rewrite string_app_cons, IH.
Qed.

Lemma string_length_app (a b : string) :
  String.length (a +:+ b) = (String.length a + String.length b)%nat.
Proof.
  induction a as [|x a IH]; [done|].
  rewrite string_app_cons. simpl. by rewrite IH.
Qed.

Lemma substring_app_l (a b : string) :
  String.substring 0 (String.length a) (a +:+ b) = a.
Proof.
  induction a as [|x a IH]; [by destruct b|].
  rewrite string_app_cons. simpl. by rewrite IH.
Qed.

Lemma substring_all (a : string) : String.substring 0 (String.length a) a = a.
Proof. induction a as [|x a IH]; simpl; [done|]. by rewrite IH. Qed.

Lemma substring_app_r (a b : string) :
  String.substring (String.length a) (String.length b) (a +:+ b) = b.
Proof.
  induction a as [|x a IH]; [apply substring_all|].
  rewrite string_app_cons. simpl. apply IH.
Qed.

Lemma HasSuffix_app (a suffix : string) : strings.HasSuffix (a +:+ suffix) suffix = true.
Proof.
  unfold strings.HasSuffix, strings.slice_from.
  rewrite string_length_app.
  replace (String.length a + String.length suffix - String.length suffix)%nat
    with (String.length a) by lia.
  replace (String.length a + String.length suffix - String.length a)%nat
    with (String.length suffix) by lia.
  rewrite substring_app_r, String.eqb_refl, andb_true_r.
  apply Nat.leb_le. lia.
Qed.

Lemma TrimSuffix_app (a suffix : string) : strings.TrimSuffix (a +:+ suffix) suffix = a.
Proof.
  unfold strings.TrimSuffix, strings.slice_to. rewrite HasSuffix_app.
  rewrite string_length_app.
  replace (String.length a + String.length suffix - String.length suffix)%nat
    with (String.length a) by lia.
  apply substring_app_l.
Qed.

Lemma string_rev_app_app (a b acc : string) :
  String.rev_app (a +:+ b) acc = String.rev_app b (String.rev_app a acc).
Proof.
  revert acc. induction a as [|x a IH]; intros acc; [done|].
  rewrite string_app_cons. simpl. apply IH.
Qed.

Lemma string_rev_app_rev_app (a acc : string) :
  String.rev_app (String.rev_app a acc) EmptyString = String.rev_app acc a.
Proof.
  revert acc. induction a as [|x a IH]; intros acc; simpl; [done|].
  by rewrite IH.
Qed.

Lemma string_rev_involutive (a : string) : String.rev (String.rev a) = a.
Proof. unfold String.rev. by rewrite string_rev_app_rev_app. Qed.

Lemma spec_test_path_go (base : string) :
  spec_test_path (base +:+ ".go") = base +:+ "_test.go".
Proof.
  unfold spec_test_path, String.rev. rewrite string_rev_app_app. simpl.
  by rewrite string_rev_app_rev_app.
Qed.

(** A text without the character [c] does not reach across a [c]: its
    occurrences are counted on each side. *)
Lemma prefix_app_sep (pat a b : string) (c : ascii) :
  free_of c pat = true ->
  pat <> EmptyString ->
  String.prefix pat (a +:+ String c b) = String.prefix pat a.
Proof.
  revert a. induction pat as [|x pat IH]; intros a Hfree Hne; [done|].
  simpl in Hfree. apply andb_prop in Hfree as [Hx Hfree].
  apply negb_true_iff, Ascii.eqb_neq in Hx.
  destruct a as [|y a].
  - rewrite string_app_nil_l. simpl. by destruct (ascii_dec x c).
  - rewrite string_app_cons. simpl. destruct (ascii_dec x y); [|done].
    destruct pat as [|x' pat]; [|by apply IH].
    by destruct a; [|rewrite string_app_cons].
Qed.

Lemma occurrences_cons (pat s : string) (y : ascii) :
  occurrences pat (String y s) =
  ((if String.prefix pat (String y s) then 1 else 0) + occurrences pat s)%nat.
Proof. reflexivity. Qed.

Lemma occurrences_app_sep (pat a b : string) (c : ascii) :
  free_of c pat = true ->
  pat <> EmptyString ->
  occurrences pat (a +:+ String c b) = (occurrences pat a + occurrences pat b)%nat.
Proof.
  intros Hfree Hne. induction a as [|y a IH].
  - rewrite string_app_nil_l, occurrences_cons.
    destruct pat as [|x pat]; [done|]. simpl in Hfree.
    apply andb_prop in Hfree as [Hx _]. apply negb_true_iff, Ascii.eqb_neq in Hx.
    simpl. by destruct (ascii_dec x c).
  - rewrite string_app_cons, !occurrences_cons.
    rewrite <- string_app_cons, prefix_app_sep, IH by done. lia.
Qed.

(** ** The import header *)

Lemma string_get_in_range (s : string) (n : nat) :
  (n < String.length s)%nat -> exists c, String.get n s = Some c.
Proof.
  revert n. induction s as [|x s IH]; intros n Hn; simpl in *; [lia|].
  destruct n as [|n]; [by eexists|]. apply IH. lia.
Qed.

Lemma string_index_last (im : string) :
  im <> EmptyString ->
  exists c, String.get (String.length im - 1) im = Some c
            /\ string_index im (strings.len im - 1) = Returns c.
Proof.
  intros Him.
  assert (0 < String.length im)%nat as Hlen by (destruct im; simpl; [done|lia]).
  destruct (string_get_in_range im (String.length im - 1)) as [c Hc]; [lia|].
  exists c. split; [done|].
  unfold string_index, strings.len.
  replace (Z.to_nat (Z.of_nat (String.length im) - 1)) with (String.length im - 1)%nat by lia.
  rewrite Hc.
  destruct (Z.ltb_spec (Z.of_nat (String.length im) - 1) 0); [lia|].
  destruct (Z.leb_spec (Z.of_nat (String.length im)) (Z.of_nat (String.length im) - 1));
    [lia|done].
Qed.

Lemma writeImportLines_returns (b : bytes.Buffer) (imports : list string) :
  Forall (fun im => im <> EmptyString) imports ->
  writeImportLines b imports = Returns (b +:+ import_lines imports).
Proof.
  intros Hall. revert b.
  induction Hall as [|im rest Him _ IH]; intros b; simpl.
  { by rewrite string_app_nil_r. }
  destruct (string_index_last im Him) as (c & Hget & ->). simpl.
  rewrite IH. unfold import_line, bytes.WriteString. rewrite Hget.
  by destruct (Ascii.eqb c dquote); rewrite string_app_assoc.
Qed.

Lemma writeImportLines_panics (b : bytes.Buffer) (imports : list string) :
  Exists (fun im => im = EmptyString) imports ->
  writeImportLines b imports = Panics (index_out_of_range (-1) 0).
Proof.
  intros Hex. revert b.
  induction imports as [|im rest IH]; intros b; [by apply Exists_nil in Hex|].
  destruct im as [|x im]; [done|].
  apply Exists_cons in Hex as [Hex|Hex]; [done|].
  simpl. destruct (string_index_last (String x im)) as (c & _ & ->); [done|].
  simpl. apply IH, Hex.
Qed.

Lemma writeImportHeader_returns (b : bytes.Buffer) (imports : list string) :
  Forall (fun im => im <> EmptyString) imports ->
  writeImportHeader b imports = Returns (b +:+ import_block imports).
Proof.
  intros H. unfold writeImportHeader, bytes.WriteString.
  rewrite writeImportLines_returns by done. simpl.
  unfold import_block, bytes.WriteString. by rewrite !string_app_assoc.
Qed.

Lemma writeImportHeader_panics (b : bytes.Buffer) (imports : list string) :
  Exists (fun im => im = EmptyString) imports ->
  writeImportHeader b imports = Panics (index_out_of_range (-1) 0).
Proof.
  intros H. unfold writeImportHeader, bytes.WriteString.
  by rewrite writeImportLines_panics.
Qed.

(** C10.  [writeImportHeader] reads the last character of every import
    string.  When every import string is non-empty it returns, having written
    the opening line, one line per import (the string itself when its last
    character is a double quote, the quoted string otherwise) and the closing
    lines.  When some import string is empty, reading its last character is
    the index [-1] in a string of length [0], and the call panics. *)
Theorem writeImportHeader_needs_nonempty (b : bytes.Buffer) (imports : list string) :
  (Forall (fun im => im <> EmptyString) imports ->
   writeImportHeader b imports = Returns (b +:+ import_block imports))
  /\ (Exists (fun im => im = EmptyString) imports ->
      writeImportHeader b imports = Panics (index_out_of_range (-1) 0)).
Proof.
  split; [apply writeImportHeader_returns | apply writeImportHeader_panics].
Qed.

(** ** Deduplication *)

Lemma foldl_snoc (acc l : list string) : foldl (fun r k => r ++ [k]) acc l = acc ++ l.
Proof.
  revert acc. induction l as [|k l IH]; intros acc; simpl; [by rewrite app_nil_r|].
  by rewrite IH, <- app_assoc.
Qed.

Lemma import_keys_lookup (imp : list string) (m : gmap string ()) (k : string) :
  is_Some (foldl (fun m im => <[im := ()]> m) m imp !! k) <-> is_Some (m !! k) \/ k ∈ imp.
Proof.
  revert m. induction imp as [|im imp IH]; intros m; simpl.
  { rewrite elem_of_nil. split; [by left|]. by intros [?|[]]. }
  rewrite IH, elem_of_cons, lookup_insert_is_Some.
  destruct (decide (im = k)) as [->|Hne].
  { split; intros _; [right|left]; by left. }
  split.
  - intros [[Heq|[_ Hs]]|Hin]; [by destruct Hne|by left|by do 2 right].
  - intros [Hs|[->|Hin]]; [|by destruct Hne|by right].
    left. right. by split.
Qed.

Lemma elem_of_dedupImports (imp : list string) (x : string) :
  x ∈ dedupImports imp <-> x ∈ imp.
Proof using map_range_perm.
  unfold dedupImports. rewrite foldl_snoc, app_nil_l, map_range_perm.
  rewrite list_elem_of_fmap. split.
  - intros ([k []] & -> & Hk). apply elem_of_map_to_list in Hk.
    assert (is_Some (foldl (fun m im => <[im := ()]> m) (∅ : gmap string ()) imp !! k))
      as Hs by eauto.
    apply import_keys_lookup in Hs as [Hs|Hs]; [|done].
    rewrite lookup_empty in Hs. by destruct Hs.
  - intros Hx.
    assert (is_Some (foldl (fun m im => <[im := ()]> m) (∅ : gmap string ()) imp !! x))
      as [[] Hs] by (apply import_keys_lookup; by right).
    exists (x, ()). split; [done|]. by apply elem_of_map_to_list.
Qed.

Lemma NoDup_dedupImports (imp : list string) : NoDup (dedupImports imp).
Proof using map_range_perm.
  unfold dedupImports. rewrite foldl_snoc, app_nil_l, map_range_perm.
  apply NoDup_fst_map_to_list.
Qed.

(** ** [generate] *)

Lemma myImports_eq (f : FileSet) :
  myImports f = "github.com/algorand/msgp/msgp" :: (import_string <$> Imports f).
Proof.
  unfold myImports.
  change ("github.com/algorand/msgp/msgp" :: (import_string <$> Imports f))
    with (["github.com/algorand/msgp/msgp"] ++ (import_string <$> Imports f)).
  generalize ["github.com/algorand/msgp/msgp"] as acc.
  induction (Imports f) as [|imp l IH]; intros acc; simpl.
  { by rewrite app_nil_r. }
  destruct (Name imp) eqn:Hname; rewrite IH, <- app_assoc; simpl;
    do 2 f_equal; unfold import_string; by rewrite Hname.
Qed.

Lemma writePkgHeader_eq (b : bytes.Buffer) (name : string) :
  writePkgHeader b name = b +:+ package_header name.
Proof.
  unfold writePkgHeader, package_header, bytes.WriteString, bytes.WriteByte.
  fold nl. by rewrite !string_app_assoc.
Qed.

Lemma writeBuildHeader_eq (b : bytes.Buffer) :
  writeBuildHeader b ["!skip_msgp_testing"] = b +:+ build_header.
Proof. reflexivity. Qed.

Lemma test_imports_nonempty : Forall (fun im => im <> EmptyString) test_imports.
Proof. unfold test_imports. repeat constructor; discriminate. Qed.

(** The test import block, spelled out. *)
Lemma import_block_test_imports :
  import_block test_imports =
  "import (" +:+ nl +:+
  tab +:+ strconv_Quote "github.com/algorand/msgp/msgp" +:+ nl +:+
  tab +:+ strconv_Quote "github.com/algorand/go-algorand/protocol" +:+ nl +:+
  tab +:+ strconv_Quote "github.com/algorand/go-algorand/test/partitiontest" +:+ nl +:+
  tab +:+ strconv_Quote "testing" +:+ nl +:+
  ")" +:+ nl +:+ nl.
Proof.
  unfold import_block, test_imports, import_lines, import_line. simpl.
  by rewrite !string_app_assoc.
Qed.

Lemma dedup_myImports_nonempty (f : FileSet) :
  Forall (fun im => im <> EmptyString) (myImports f) ->
  Forall (fun im => im <> EmptyString) (dedupImports (myImports f)).
Proof using map_range_perm.
  rewrite !Forall_forall. intros H im Him. by apply H, elem_of_dedupImports.
Qed.

(** What [generate] returns when no import string is empty. *)
Lemma generate_returns (f : FileSet) (mode : Method) :
  Forall (fun im => im <> EmptyString) (myImports f) ->
  let printed := PrintTo f mode (wants_tests mode) in
  generate f mode =
  Returns
    (package_header (Package f) +:+ import_block (dedupImports (myImports f)) +:+
       match PrintTo_err printed with
       | None => topics_Bytes printed +:+ funcbuf_Bytes printed
       | Some _ => EmptyString
       end,
     if wants_tests mode
     then Some (build_header +:+ package_header (Package f) +:+
                import_block test_imports +:+ tests_Bytes printed)
     else None,
     PrintTo_err printed).
Proof using map_range_perm.
  intros Hne printed. unfold generate.
  rewrite (writeImportHeader_returns _ (dedupImports (myImports f)))
    by by apply dedup_myImports_nonempty.
  rewrite (writeImportHeader_returns _ test_imports) by apply test_imports_nonempty.
  rewrite !writePkgHeader_eq, writeBuildHeader_eq. unfold bytes.NewBuffer.
  rewrite !string_app_nil_l.
  destruct (wants_tests mode) eqn:Hmode; simpl.
  - fold printed. unfold bytes.Write.
    destruct (PrintTo_err printed); simpl;
      by rewrite ?string_app_assoc, ?string_app_nil_r.
  - fold printed. unfold bytes.Write.
    destruct (PrintTo_err printed); simpl;
      by rewrite ?string_app_assoc, ?string_app_nil_r.
Qed.

(** ** Threads and their traces *)

Lemma observe_inj {X} (e : event X) (x y : X) : observe e x = observe e y -> x = y.
Proof. destruct e; simpl; intros H; try congruence; by destruct x, y. Qed.

Lemma runs_bind_intro {A B} (p : prog A) (k : A -> prog B) tr1 tr2 a out :
  runs p tr1 (Returns a) -> runs (k a) tr2 out -> runs (prog_bind k p) (tr1 ++ tr2) out.
Proof.
  revert tr1. induction p as [r|v|X e h IH]; intros tr1; simpl.
  - by intros [-> [= ->]].
  - by intros [_ [=]].
  - intros (x & tr' & -> & Hrun) Hk. exists x, (tr' ++ tr2). split; [done|]. by apply IH.
Qed.

Lemma runs_bind_cancel {A B} (p : prog A) (k : A -> prog B) tr1 rest a out :
  runs p tr1 (Returns a) -> runs (prog_bind k p) (tr1 ++ rest) out -> runs (k a) rest out.
Proof.
  revert tr1. induction p as [r|v|X e h IH]; intros tr1; simpl.
  - by intros [-> [= ->]].
  - by intros [_ [=]].
  - intros (x & tr' & -> & Hrun) (y & tr'' & Heq & Hrest).
    simpl in Heq. injection Heq as Hobs Htr. apply observe_inj in Hobs as ->.
    subst tr''. by apply (IH y tr').
Qed.

Lemma runs_bind_inv {A B} (p : prog A) (k : A -> prog B) tr out :
  runs (prog_bind k p) tr out ->
  (exists a tr1 tr2, tr = tr1 ++ tr2 /\ runs p tr1 (Returns a) /\ runs (k a) tr2 out)
  \/ (exists v, runs p tr (Panics v) /\ out = Panics v).
Proof.
  revert tr. induction p as [r|v|X e h IH]; intros tr; simpl.
  - intros Hk. left. by exists r, [], tr.
  - intros [-> ->]. right. by exists v.
  - intros (x & tr' & -> & Hrun). apply IH in Hrun as [(a & tr1 & tr2 & -> & H1 & H2)|(v & H1 & ->)].
    + left. exists a, (observe e x :: tr1), tr2. split; [done|]. split; [|done].
      by exists x, tr1.
    + right. exists v. split; [|done]. by exists x, tr'.
Qed.

(** A thread run by the machine does what [runs] says: the calls the
    caller has made so far, followed by any run of what it has left, make a
    run of the caller. *)
Lemma step_caller_runs {R} (p p' : prog R) (w w' : World) :
  step caller (p, w) = Some (p', w') ->
  exists o, forall tr out, runs p' tr out -> runs p (o :: tr) out.
Proof.
  destruct p as [r|v|X e k]; simpl; try done.
  destruct (handle e w) as [[x w'']|] eqn:He; [|done]. intros [= <- <-].
  exists (observe e x). intros tr out Hrun. by exists x, tr.
Qed.

Lemma step_goroutine_caller {R} (i : nat) (p p' : prog R) (w w' : World) :
  step (goroutine i) (p, w) = Some (p', w') -> p' = p.
Proof.
  simpl. destruct (goroutines w !! i) as [[| |X e k]|]; try done.
  destruct (handle e w) as [[x w'']|]; [|done]. by intros [= <- _].
Qed.

Lemma run_caller_runs {R} (schedule : list thread) (p p' : prog R) (w w' : World) :
  run schedule (p, w) = (p', w') ->
  exists tr, forall tr' out, runs p' tr' out -> runs p (tr ++ tr') out.
Proof.
  unfold run. revert p w. induction schedule as [|t l IH]; intros p w; simpl.
  { intros [= <- <-]. by exists []. }
  destruct (step t (p, w)) as [[p1 w1]|] eqn:Hstep; simpl; [|apply IH].
  intros Hrest. apply IH in Hrest as [tr Htr]. destruct t as [|i].
  - apply step_caller_runs in Hstep as [o Ho]. exists (o :: tr).
    intros tr' out Hrun. by apply Ho, Htr.
  - apply step_goroutine_caller in Hstep as ->. by exists tr.
Qed.

Lemma run_returned_runs {R} (schedule : list thread) (p : prog R) (r : R) (w w' : World) :
  run schedule (p, w) = (Ret r, w') -> exists tr, runs p tr (Returns r).
Proof.
  intros [tr Htr]%run_caller_runs. exists tr.
  rewrite <- (app_nil_r tr). by apply Htr.
Qed.

(** ** [format] *)

Lemma runs_format_skip (file data : string) tr r :
  runs (format file data true) tr r <->
  exists e, tr = [did_WriteFile file data perm_0600 e] /\ r = Returns e.
Proof.
  simpl. split.
  - intros (e & tr' & -> & -> & ->). by exists e.
  - intros (e & -> & ->). by exists e, [].
Qed.

Lemma runs_format_full (file data : string) tr r :
  runs (format file data false) tr r <->
  (exists out e, tr = [did_Process file data (out, Some e)] /\ r = Returns (Some e))
  \/ (exists out e,
        tr = [did_Process file data (out, None);
              did_WriteFile file out perm_0600 (Some e)]
        /\ r = Returns (Some e))
  \/ (exists out g,
        tr = [did_Process file data (out, None);
              did_WriteFile file out perm_0600 None;
              did_WriteFormattedFiles [file] format_config g]
        /\ r = Returns g).
Proof.
  simpl. split.
  - intros ([out [e|]] & tr1 & -> & H); simpl in H.
    { destruct H as [-> ->]. left. by exists out, e. }
    destruct H as ([e|] & tr2 & -> & H); simpl in H.
    { destruct H as [-> ->]. right. left. by exists out, e. }
    destruct H as (g & tr3 & -> & H). right. right. exists out, g.
    by destruct g; simpl in H; destruct H as [-> ->].
  - intros [(out & e & -> & ->)|[(out & e & -> & ->)|(out & g & -> & ->)]].
    + by exists (out, Some e), [].
    + exists (out, None), [did_WriteFile file out perm_0600 (Some e)]. split; [done|].
      simpl. by exists (Some e), [].
    + exists (out, None),
        [did_WriteFile file out perm_0600 None;
         did_WriteFormattedFiles [file] format_config g].
      split; [done|]. simpl. exists None, [did_WriteFormattedFiles [file] format_config g].
      split; [done|]. simpl. exists g, []. split; [done|]. by destruct g.
Qed.

Lemma format_returns (file data : string) (skipFormat : bool) tr r :
  runs (format file data skipFormat) tr r -> exists e, r = Returns e.
Proof.
  destruct skipFormat.
  - intros (e & _ & ->)%runs_format_skip. by exists e.
  - intros [(out & e & _ & ->)|[(out & e & _ & ->)|(out & g & _ & ->)]]%runs_format_full;
      by eexists.
Qed.

Lemma lookup_write_file (filename data : string) (p : N) (files : gmap string File) :
  content <$> write_file filename data p files !! filename = Some data.
Proof. unfold write_file. by rewrite lookup_insert_eq. Qed.

Lemma lookup_write_file_ne (filename other data : string) (p : N) (files : gmap string File) :
  filename <> other -> write_file filename data p files !! other = files !! other.
Proof. intros. unfold write_file. by rewrite lookup_insert_ne. Qed.

Lemma lookup_write_file_new (filename data : string) (p : N) (files : gmap string File) :
  files !! filename = None ->
  write_file filename data p files !! filename = Some {| content := data; perm := p |}.
Proof. intros H. unfold write_file. by rewrite lookup_insert_eq, H. Qed.

(** C5.  With [skipFormat] set, [format] makes one call and no other:
    [ioutil.WriteFile] on the path, with the bytes it was given and the
    permission bits [0600] (read and write for the owner, nothing else), and
    it returns what that call returns.  Neither the normalizer nor the
    grouping tool is called.  When the write goes through, the file at the
    path holds exactly the given bytes, the other files are untouched, and a
    file that did not exist has the permission bits [0600]; when the write
    fails, its error is returned and the files are as the failed write left
    them. *)
Theorem format_skip_writes_verbatim (file data : string) :
  (forall tr r,
     runs (format file data true) tr r <->
     exists e, tr = [did_WriteFile file data perm_0600 e] /\ r = Returns e)
  /\ perm_0600 = (256 + 128)%N
  /\ (forall w e files,
        WriteFile_failure env file data (fs w) = Some (e, files) ->
        exec (format file data true) w = (set_fs files w, Done (Some e)))
  /\ (forall w,
        WriteFile_failure env file data (fs w) = None ->
        exists w',
          exec (format file data true) w = (w', Done None)
          /\ content <$> fs w' !! file = Some data
          /\ (forall other, file <> other -> fs w' !! other = fs w !! other)
          /\ (fs w !! file = None -> perm <$> fs w' !! file = Some perm_0600)
          /\ stdout w' = stdout w /\ goroutines w' = goroutines w).
Proof.
  split; [apply runs_format_skip|]. split; [done|]. split.
  - intros w e files He. simpl. by rewrite He.
  - intros w Hok. exists (set_fs (write_file file data perm_0600 (fs w)) w).
    simpl. rewrite Hok. split; [done|]. simpl.
    split; [apply lookup_write_file|].
    split; [intros other Hne; by apply lookup_write_file_ne|].
    split; [|done]. intros Hnew. by rewrite lookup_write_file_new.
Qed.

(** C4.  With [skipFormat] unset, [format] first calls the normalizer
    [imports.Process] on the path and the bytes; if that fails it returns the
    error and has called nothing else, so that nothing is written.  Otherwise
    it writes the normalizer's output to the path (bits [0600]); if the write
    fails it returns that error and the grouping tool is not called.
    Otherwise it calls [gci.WriteFormattedFiles] on the path with the policy
    of four sections (standard library, default, prefix
    [github.com/algorand], prefix [github.com/algorand/go-algorand])
    separated by new lines, and returns what the tool returns.  Nothing is
    done after the tool: the files are as the tool left them, so that when a
    failing tool has left the file alone it holds the normalizer's output. *)
Theorem format_normalizes_then_groups (file data : string) :
  format_config =
    {| gci.Sections :=
         [ sections.StandardPackage; sections.DefaultSection;
           sections.Prefix "github.com/algorand";
           sections.Prefix "github.com/algorand/go-algorand" ];
       gci.SectionSeparators := [ sections.NewLine ] |}
  /\ (forall tr r,
        runs (format file data false) tr r <->
        (exists out e, tr = [did_Process file data (out, Some e)] /\ r = Returns (Some e))
        \/ (exists out e,
              tr = [did_Process file data (out, None);
                    did_WriteFile file out perm_0600 (Some e)]
              /\ r = Returns (Some e))
        \/ (exists out g,
              tr = [did_Process file data (out, None);
                    did_WriteFile file out perm_0600 None;
                    did_WriteFormattedFiles [file] format_config g]
              /\ r = Returns g))
  /\ (forall w out e,
        Process env file data (fs w) = (out, Some e) ->
        exec (format file data false) w = (w, Done (Some e)))
  /\ (forall w out e files,
        Process env file data (fs w) = (out, None) ->
        WriteFile_failure env file out (fs w) = Some (e, files) ->
        exec (format file data false) w = (set_fs files w, Done (Some e)))
  /\ (forall w out files g,
        Process env file data (fs w) = (out, None) ->
        WriteFile_failure env file out (fs w) = None ->
        WriteFormattedFiles env [file] format_config
          (write_file file out perm_0600 (fs w)) = (files, g) ->
        exec (format file data false) w = (set_fs files w, Done g)
        /\ (files !! file = write_file file out perm_0600 (fs w) !! file ->
            content <$> fs (exec (format file data false) w).1 !! file = Some out)).
Proof.
  split; [done|]. split; [apply runs_format_full|]. split; [|split].
  - intros w out e HP. simpl. by rewrite HP.
  - intros w out e files HP HW. simpl. rewrite HP. simpl. by rewrite HW.
  - intros w out files g HP HW HG.
    assert (exec (format file data false) w = (set_fs files w, Done g)) as Hexec.
    { simpl. rewrite HP. simpl. rewrite HW. simpl. rewrite HG. simpl. by destruct g. }
    split; [done|]. rewrite Hexec. simpl. intros ->. apply lookup_write_file.
Qed.

(** The marker in the implementation buffer: once in the header that
    [generate] writes, and as often again as the package clause, the import
    block and the output of [PrintTo] hold it themselves. *)
Lemma marker_in_package_header (name rest : string) :
  occurrences generated_marker (package_header name +:+ rest) =
  (occurrences generated_marker ("package " +:+ name) + 1 +
   occurrences generated_marker rest)%nat.
Proof.
  assert (package_header name +:+ rest =
          ("package " +:+ name) +:+
          String "010" (generated_marker +:+
                        String "010" (EmptyString +:+ String "010" rest))) as ->.
  { unfold package_header. by rewrite !string_app_assoc. }
  rewrite !occurrences_app_sep by done.
  change (occurrences generated_marker generated_marker) with 1%nat.
  change (occurrences generated_marker EmptyString) with 0%nat. lia.
Qed.

(** ** [generate] and its two buffers *)

Lemma wants_tests_spec (mode : Method) :
  wants_tests mode = true <-> Z.land mode gen_Test = gen_Test.
Proof. unfold wants_tests. apply Z.eqb_eq. Qed.

Lemma prefix_app (a rest : string) : String.prefix a (a +:+ rest) = true.
Proof.
  induction a as [|x a IH].
  - rewrite string_app_nil_l. by destruct rest.
  - rewrite string_app_cons. simpl. by destruct (ascii_dec x x).
Qed.

Lemma prefix_build_header_package (name rest : string) :
  String.prefix build_header ("package " +:+ name +:+ rest) = false.
Proof. reflexivity. Qed.

(** C2.  When no import string is empty, [generate] returns, and it returns
    a test buffer exactly when [mode&gen.Test == gen.Test].  The test buffer
    is: the [//go:build] line and the [// +build] line, both with the one tag
    [!skip_msgp_testing], an empty line, the package header, the import block
    of the runtime import and the three imports [protocol], [partitiontest]
    and [testing], each quoted, and then what [PrintTo] wrote to the test
    sink.  That import block is this text whatever the file imports: it is
    not passed through [dedupImports] and none of the file's imports is in
    it.  The implementation buffer is the package header, the import block of
    the deduplicated import strings and, when [PrintTo] succeeded, its topic
    and body output: it begins with the package clause, not with the build
    header, and [generate] writes no build header into it. *)
Theorem generate_test_buffer (f : FileSet) (mode : Method) :
  Forall (fun im => im <> EmptyString) (myImports f) ->
  exists out tests err,
    generate f mode = Returns (out, tests, err)
    /\ (is_Some tests <-> Z.land mode gen_Test = gen_Test)
    /\ (forall t, tests = Some t ->
          t = "//go:build !skip_msgp_testing" +:+ nl +:+
              "// +build !skip_msgp_testing" +:+ nl +:+ nl +:+
              "package " +:+ Package f +:+ nl +:+
              generated_marker +:+ nl +:+ nl +:+
              "import (" +:+ nl +:+
              tab +:+ strconv_Quote "github.com/algorand/msgp/msgp" +:+ nl +:+
              tab +:+ strconv_Quote "github.com/algorand/go-algorand/protocol" +:+ nl +:+
              tab +:+ strconv_Quote "github.com/algorand/go-algorand/test/partitiontest"
                  +:+ nl +:+
              tab +:+ strconv_Quote "testing" +:+ nl +:+
              ")" +:+ nl +:+ nl +:+
              tests_Bytes (PrintTo f mode true))
    /\ out = package_header (Package f) +:+
             import_block (dedupImports (myImports f)) +:+
             match err with
             | None => topics_Bytes (PrintTo f mode (wants_tests mode)) +:+
                       funcbuf_Bytes (PrintTo f mode (wants_tests mode))
             | Some _ => EmptyString
             end
    /\ String.prefix ("package " +:+ Package f +:+ nl) out = true
    /\ String.prefix build_header out = false.
Proof using map_range_perm.
  intros Hne. pose proof (generate_returns f mode Hne) as Hgen. simpl in Hgen.
  eexists _, _, _. split; [exact Hgen|]. split; [|split; [|split; [done|split]]].
  - rewrite <- wants_tests_spec. by destruct (wants_tests mode).
  - intros t Ht. destruct (wants_tests mode); [|done]. injection Ht as <-.
    rewrite import_block_test_imports. unfold build_header, package_header.
    by rewrite !string_app_assoc.
  - unfold package_header. rewrite <- !string_app_assoc.
    rewrite !(string_app_assoc ("package " +:+ Package f +:+ nl)).
    apply prefix_app.
  - unfold package_header. rewrite !string_app_assoc.
    apply prefix_build_header_package.
Qed.

(** ** [PrintFile] *)

Lemma step_returned {R} (t : thread) (r : R) (w : World) :
  goroutines w = [] -> step t (Ret r, w) = None.
Proof. intros Hg. destruct t as [|i]; simpl; [done|]. by rewrite Hg. Qed.

Lemma run_returned {R} (schedule : list thread) (r : R) (w : World) :
  goroutines w = [] -> run schedule (Ret r, w) = (Ret r, w).
Proof.
  intros Hg. unfold run. induction schedule as [|t l IH]; simpl; [done|].
  by rewrite step_returned.
Qed.

(** C3.  When the call reaches [PrintTo] (no import string is empty) and
    [PrintTo] returns an error, [generate] returns that error with an
    implementation buffer that holds the package header and the import block
    only: neither topic nor body output is appended.  [PrintFile] then
    returns the error at once: it makes no call at all, so no goroutine is
    started and no file is written, and under every schedule the world stays
    as it was; a path that held no file holds none afterwards. *)
Theorem PrintFile_generator_error
    (file : string) (f : FileSet) (mode : Method) (skipFormat : bool) (e : error) :
  Forall (fun im => im <> EmptyString) (myImports f) ->
  PrintTo_err (PrintTo f mode (wants_tests mode)) = Some e ->
  (exists tests,
     generate f mode =
     Returns (package_header (Package f) +:+ import_block (dedupImports (myImports f)),
              tests, Some e))
  /\ PrintFile file f mode skipFormat = Ret (Some e)
  /\ (forall tr r,
        runs (PrintFile file f mode skipFormat) tr r -> tr = [] /\ r = Returns (Some e))
  /\ (forall w, exec (PrintFile file f mode skipFormat) w = (w, Done (Some e)))
  /\ (forall schedule w,
        goroutines w = [] ->
        run schedule (PrintFile file f mode skipFormat, w) = (Ret (Some e), w))
  /\ (forall schedule w path,
        goroutines w = [] -> fs w !! path = None ->
        fs (run schedule (PrintFile file f mode skipFormat, w)).2 !! path = None).
Proof using map_range_perm.
  intros Hne Herr. pose proof (generate_returns f mode Hne) as Hgen. simpl in Hgen.
  rewrite Herr, string_app_nil_r in Hgen.
  assert (PrintFile file f mode skipFormat = Ret (Some e)) as HPF.
  { unfold PrintFile. by rewrite Hgen. }
  split; [by eexists|]. split; [done|]. rewrite HPF.
  split; [by intros tr r [-> ->]|]. split; [done|].
  split; [intros; by apply run_returned|].
  intros schedule w path Hg Hpath. by rewrite run_returned.
Qed.

(** The runs of the caller's thread when there is a test buffer. *)
Lemma runs_PrintFile_tests
    (file : string) (f : FileSet) (mode : Method) (skipFormat : bool) out tests tr r :
  generate f mode = Returns (out, Some tests, None) ->
  runs (PrintFile file f mode skipFormat) tr r <->
  exists c trF x rest,
    tr = did_make_chan 1 c :: did_go (goformat_func file out c skipFormat) :: trF ++ rest
    /\ runs (format (testfile_of file) tests skipFormat) trF (Returns x)
    /\ match x with
       | Some e => rest = [] /\ r = Returns (Some e)
       | None =>
           exists v,
             rest = [did_Printf (chalk_Magenta_Color wrote_format) [testfile_of file];
                     did_recv c v]
             /\ r = Returns v
       end.
Proof.
  intros Hgen. open_PrintFile Hgen. split.
  - intros (c & tr1 & -> & [] & tr2 & -> & Hrun).
    apply runs_bind_inv in Hrun as [(x & trF & rest & -> & HF & Hk)|(v & HF & _)].
    2: { apply format_returns in HF as [? [=]]. }
    exists c, trF, x, rest. split; [done|]. split; [done|].
    destruct x as [e|]; simpl in Hk.
    + by destruct Hk as [-> ->].
    + destruct Hk as ([] & tr3 & -> & v & tr4 & -> & Hv). exists v.
      by destruct v; simpl in Hv; destruct Hv as [-> ->].
  - intros (c & trF & x & rest & -> & HF & Hk).
    exists c, (did_go (goformat_func file out c skipFormat) :: trF ++ rest).
    split; [done|]. exists tt, (trF ++ rest). split; [done|].
    eapply runs_bind_intro; [exact HF|].
    destruct x as [e|]; simpl.
    + by destruct Hk as [-> ->].
    + destruct Hk as (v & -> & ->). exists tt, [did_recv c v]. split; [done|].
      exists v, []. split; [done|]. by destruct v.
Qed.

(** The runs of the caller's thread when there is no test buffer. *)
Lemma runs_PrintFile_no_tests
    (file : string) (f : FileSet) (mode : Method) (skipFormat : bool) out tr r :
  generate f mode = Returns (out, None, None) ->
  runs (PrintFile file f mode skipFormat) tr r <->
  exists c v,
    tr = [did_make_chan 1 c; did_go (goformat_func file out c skipFormat); did_recv c v]
    /\ r = Returns v.
Proof.
  intros Hgen. open_PrintFile Hgen. split.
  - intros (c & tr1 & -> & [] & tr2 & -> & v & tr3 & -> & Hv). exists c, v.
    by destruct v; simpl in Hv; destruct Hv as [-> ->].
  - intros (c & v & -> & ->). exists c. eexists. split; [done|].
    exists tt. eexists. split; [done|].
    exists v, []. split; [done|]. by destruct v.
Qed.

(** The runs of the goroutine of [goformat]: the calls of [format], the
    send of its result, and the log line. *)
Lemma runs_goformat_func (file data : string) (c : chan) (skipFormat : bool) tr r :
  runs (closure_body (goformat_func file data c skipFormat)) tr r <->
  exists trF x,
    runs (format file data skipFormat) trF (Returns x)
    /\ tr = trF ++ [did_send c x; did_Printf (chalk_Magenta_Color wrote_format) [file]]
    /\ r = Returns tt.
Proof.
  unfold closure_body, infof, call, mbind, mret, prog_mbind, prog_ret.
  cbn -[format]. split.
  - intros Hrun.
    apply runs_bind_inv in Hrun as [(x & trF & rest & -> & HF & Hk)|(v & HF & _)].
    2: { apply format_returns in HF as [? [=]]. }
    simpl in Hk. destruct Hk as ([] & tr1 & -> & [] & tr2 & -> & -> & ->).
    by exists trF, x.
  - intros (trF & x & HF & -> & ->). eapply runs_bind_intro; [exact HF|]. simpl.
    exists tt. eexists. split; [done|]. by exists tt, [].
Qed.

Lemma format_trace_quiet (file data : string) (skipFormat : bool) trF x :
  runs (format file data skipFormat) trF x ->
  Forall (fun o => (forall c v, o <> did_recv c v) /\ (forall s a, o <> did_Printf s a)) trF.
Proof.
  destruct skipFormat.
  - intros (e & -> & _)%runs_format_skip. by repeat constructor.
  - intros [(o & e & -> & _)|[(o & e & -> & _)|(o & g & -> & _)]]%runs_format_full;
      by repeat constructor.
Qed.

(** C7.  Take a call of [PrintFile] with a test buffer, and a way [trF] for
    the formatting of the test file to fail with the error [e].  The caller
    makes the channel, starts the goroutine for the implementation file,
    formats the test file, and returns [e] there and then: every run that
    goes through [trF] ends with it, with the result [e].  Up to that point
    the caller has received nothing from the channel, so that the result
    does not depend on how the formatting of the implementation file ends,
    and it has printed nothing, so that there is no log line for the test
    file. *)
Theorem PrintFile_test_format_error
    (file : string) (f : FileSet) (mode : Method) (skipFormat : bool)
    (out tests : bytes.Buffer) (trF : list obs) (e : error) (c : chan) :
  generate f mode = Returns (out, Some tests, None) ->
  runs (format (testfile_of file) tests skipFormat) trF (Returns (Some e)) ->
  let started := [did_make_chan 1 c; did_go (goformat_func file out c skipFormat)] in
  runs (PrintFile file f mode skipFormat) (started ++ trF) (Returns (Some e))
  /\ (forall rest r,
        runs (PrintFile file f mode skipFormat) (started ++ trF ++ rest) r ->
        rest = [] /\ r = Returns (Some e))
  /\ Forall (fun o => (forall c' v, o <> did_recv c' v) /\ (forall s a, o <> did_Printf s a))
        (started ++ trF).
Proof.
  intros Hgen HF started. split; [|split].
  - apply (runs_PrintFile_tests _ _ _ _ _ _ _ _ Hgen).
    exists c, trF, (Some e), []. by rewrite app_nil_r.
  - intros rest r. open_PrintFile Hgen.
    intros (c' & tr1 & [= <- <-] & [] & tr2 & [= <-] & Hrun).
    by apply (runs_bind_cancel _ _ _ _ _ _ HF) in Hrun as [-> ->].
  - apply Forall_app. split; [by repeat constructor|].
    by apply format_trace_quiet in HF.
Qed.

Lemma format_stays_on (file data : string) (skipFormat : bool) trF x :
  runs (format file data skipFormat) trF x -> Forall (stays_on file) trF.
Proof.
  destruct skipFormat.
  - intros (e & -> & _)%runs_format_skip. by repeat constructor.
  - intros [(o & e & -> & _)|[(o & e & -> & _)|(o & g & -> & _)]]%runs_format_full;
      by repeat constructor.
Qed.

Lemma format_success_writes (file data : string) (skipFormat : bool) trF :
  runs (format file data skipFormat) trF (Returns None) ->
  exists written, did_WriteFile file written perm_0600 None ∈ trF
                  /\ (skipFormat = true -> written = data).
Proof.
  destruct skipFormat.
  - intros (e & -> & [= <-])%runs_format_skip. exists data. split; [|done].
    apply list_elem_of_here.
  - intros [(o & e & -> & [=])|[(o & e & -> & [=])|(o & g & -> & [= <-])]]%runs_format_full.
    exists o. split; [|done]. apply list_elem_of_further, list_elem_of_here.
Qed.

(** C9, as the code has it.  When there is a test buffer, the files the
    caller's thread names, in every call that names one, are the one path
    [strings.TrimSuffix(file, ".go") + "_test.go"]: the target path without a
    trailing [.go], when it has one, followed by [_test.go].  A call that
    succeeds has written that file, with the test buffer itself when
    [skipFormat] is set.  For a target path [base.go] the path is
    [base_test.go], which is the path without its extension, then [_test.]
    and the extension. *)
Theorem PrintFile_test_file_path
    (file : string) (f : FileSet) (mode : Method) (skipFormat : bool)
    (out tests : bytes.Buffer) (tr : list obs) (r : go_result (option error)) :
  generate f mode = Returns (out, Some tests, None) ->
  runs (PrintFile file f mode skipFormat) tr r ->
  let testfile := strings.TrimSuffix file ".go" +:+ "_test.go" in
  Forall (stays_on testfile) tr
  /\ (r = Returns None ->
      exists written,
        did_WriteFile testfile written perm_0600 None ∈ tr
        /\ (skipFormat = true -> written = tests))
  /\ (forall base,
        file = base +:+ ".go" ->
        testfile = base +:+ "_test.go" /\ testfile = spec_test_path file).
Proof.
  intros Hgen Hrun testfile.
  apply (runs_PrintFile_tests _ _ _ _ _ _ _ _ Hgen) in Hrun
    as (c & trF & x & rest & -> & HF & Hk).
  fold testfile in HF. split; [|split].
  - do 2 (apply Forall_cons; split; [done|]). apply Forall_app. split.
    + by apply format_stays_on in HF.
    + destruct x; [by destruct Hk as [-> _]|].
      destruct Hk as (v & -> & _). by repeat constructor.
  - intros ->. destruct x as [e|]; [by destruct Hk as [_ [=]]|].
    apply format_success_writes in HF as (written & Hin & Hskip).
    exists written. split; [|done].
    do 2 apply list_elem_of_further. apply elem_of_app. by left.
  - intros base ->. subst testfile.
    by rewrite TrimSuffix_app, spec_test_path_go.
Qed.

(** ** The runtime import and the imports of the file *)

Lemma dedupImports_NoDup_perm (imp : list string) : NoDup imp -> dedupImports imp ≡ₚ imp.
Proof using map_range_perm.
  intros Hnd. apply NoDup_Permutation; [apply NoDup_dedupImports|done|].
  apply elem_of_dedupImports.
Qed.

(** The implementation buffer after a successful [PrintTo]: the package
    clause, the marker on the next line, an empty line, the import block,
    the topic output and the body output.  The import block has one line
    for each string [dedupImports] returns: the runtime import and the
    import strings of the declared imports, each string once. *)
Lemma generate_implementation_buffer (f : FileSet) (mode : Method) :
  Forall (fun im => im <> EmptyString) (myImports f) ->
  PrintTo_err (PrintTo f mode (wants_tests mode)) = None ->
  exists out tests,
    generate f mode = Returns (out, tests, None)
    /\ out = "package " +:+ Package f +:+ nl +:+
             generated_marker +:+ nl +:+
             nl +:+
             import_block (dedupImports (myImports f)) +:+
             topics_Bytes (PrintTo f mode (wants_tests mode)) +:+
             funcbuf_Bytes (PrintTo f mode (wants_tests mode))
    /\ NoDup (dedupImports (myImports f))
    /\ (forall im, im ∈ dedupImports (myImports f) <->
                   im = "github.com/algorand/msgp/msgp"
                   \/ im ∈ import_string <$> Imports f)
    /\ occurrences generated_marker out =
       (occurrences generated_marker ("package " +:+ Package f) + 1 +
        occurrences generated_marker
          (import_block (dedupImports (myImports f)) +:+
           topics_Bytes (PrintTo f mode (wants_tests mode)) +:+
           funcbuf_Bytes (PrintTo f mode (wants_tests mode))))%nat.
Proof using map_range_perm.
  intros Hne Hok. pose proof (generate_returns f mode Hne) as Hgen. simpl in Hgen.
  rewrite Hok in Hgen. eexists _, _. split; [exact Hgen|].
  split; [unfold package_header; by rewrite !string_app_assoc|].
  split; [apply NoDup_dedupImports|]. split.
  - intros im. by rewrite elem_of_dedupImports, myImports_eq, elem_of_cons.
  - apply marker_in_package_header.
Qed.

(** C1 at the file [msgp_user_file], whose source imports the runtime
    package itself.  The import string of the runtime import has no quotes
    and the declared one has them, so [dedupImports] keeps both, and
    [writeImportHeader] writes the same line for both: the import block of
    the implementation buffer has the runtime import twice, in whichever
    order [range] takes the keys. *)
Theorem generate_repeats_runtime_import (mode : Method) :
  exists tests,
    generate msgp_user_file mode =
    Returns
      ("package sample" +:+ nl +:+
       generated_marker +:+ nl +:+ nl +:+
       "import (" +:+ nl +:+
       tab +:+ dq +:+ "github.com/algorand/msgp/msgp" +:+ dq +:+ nl +:+
       tab +:+ dq +:+ "github.com/algorand/msgp/msgp" +:+ dq +:+ nl +:+
       ")" +:+ nl +:+ nl +:+
       "func Foo() {}",
       tests, None).
Proof using map_range_perm Quote_plain.
  assert (Forall (fun im => im <> EmptyString) (myImports msgp_user_file)) as Hne.
  { rewrite myImports_eq. by repeat constructor. }
  pose proof (generate_returns msgp_user_file mode Hne) as Hgen. simpl in Hgen.
  eexists. rewrite Hgen. do 2 f_equal. f_equal.
  assert (import_block (dedupImports (myImports msgp_user_file)) =
          "import (" +:+ nl +:+
          tab +:+ dq +:+ "github.com/algorand/msgp/msgp" +:+ dq +:+ nl +:+
          tab +:+ dq +:+ "github.com/algorand/msgp/msgp" +:+ dq +:+ nl +:+
          ")" +:+ nl +:+ nl) as ->; [|done].
  assert (NoDup (myImports msgp_user_file)) as Hnd.
  { rewrite myImports_eq. simpl. apply NoDup_cons. split; [|apply NoDup_singleton].
    rewrite list_elem_of_singleton. discriminate. }
  apply dedupImports_NoDup_perm in Hnd.
  remember (dedupImports (myImports msgp_user_file)) as l eqn:Hl. clear Hl.
  rewrite myImports_eq in Hnd. simpl in Hnd.
  symmetry in Hnd. apply Permutation_length_2_inv in Hnd as [-> | ->];
    unfold import_block, import_lines, import_line; simpl;
    by rewrite Quote_plain.
Qed.

(** ** More on [dedupImports] *)

Lemma dedupImports_perm_remove_dups (imp : list string) :
  dedupImports imp ≡ₚ remove_dups imp.
Proof using map_range_perm.
  apply NoDup_Permutation; [apply NoDup_dedupImports|apply NoDup_remove_dups|].
  intros x. by rewrite elem_of_dedupImports, elem_of_remove_dups.
Qed.

Lemma dedupImports_submseteq (imp : list string) : dedupImports imp ⊆+ imp.
Proof using map_range_perm.
  apply NoDup_submseteq; [apply NoDup_dedupImports|].
  intros x. by rewrite elem_of_dedupImports.
Qed.

(** X1.  [dedupImports] returns, in some order, the input with every
    repetition removed: it is never longer than the input, and as long as
    the input exactly when the input has no repetition. *)
Theorem dedupImports_length (imp : list string) :
  dedupImports imp ≡ₚ remove_dups imp
  /\ (length (dedupImports imp) <= length imp)%nat
  /\ (length (dedupImports imp) = length imp <-> NoDup imp).
Proof using map_range_perm.
  split; [apply dedupImports_perm_remove_dups|].
  split; [apply submseteq_length, dedupImports_submseteq|]. split.
  - intros Hlen.
    assert (dedupImports imp ≡ₚ imp) as <-; [|apply NoDup_dedupImports].
    apply submseteq_length_Permutation; [apply dedupImports_submseteq|].
    rewrite Hlen. reflexivity.
  - intros Hnd. apply Permutation_length, NoDup_Permutation;
      [apply NoDup_dedupImports|done|apply elem_of_dedupImports].
Qed.

Lemma dedupImports_same (imp imp' : list string) :
  (forall x, x ∈ imp <-> x ∈ imp') -> dedupImports imp ≡ₚ dedupImports imp'.
Proof using map_range_perm.
  intros Hsame. apply NoDup_Permutation; [apply NoDup_dedupImports..|].
  intros x. by rewrite !elem_of_dedupImports.
Qed.

(** X2.  What [dedupImports] returns depends, up to its order, on which
    strings the input holds and on nothing else: neither on their order nor
    on how often each is repeated.  So it does nothing more when applied a
    second time. *)
Theorem dedupImports_set_only (imp : list string) :
  (forall imp', (forall x, x ∈ imp <-> x ∈ imp') ->
                dedupImports imp ≡ₚ dedupImports imp')
  /\ (forall imp', imp ≡ₚ imp' -> dedupImports imp ≡ₚ dedupImports imp')
  /\ dedupImports (imp ++ imp) ≡ₚ dedupImports imp
  /\ dedupImports (dedupImports imp) ≡ₚ dedupImports imp.
Proof using map_range_perm.
  split; [intros imp'; apply dedupImports_same|].
  split; [|split].
  - intros imp' Hperm. apply dedupImports_same. intros x. by rewrite Hperm.
  - apply dedupImports_same. intros x. rewrite elem_of_app. split; [by intros [?|?]|by left].
  - apply dedupImports_same. intros x. apply elem_of_dedupImports.
Qed.

(** ** The name of the test file *)

Lemma length_substring_0 (n : nat) (s : string) :
  (n <= String.length s)%nat -> String.length (String.substring 0 n s) = n.
Proof.
  revert n. induction s as [|x s IH]; intros n Hn; simpl in *.
  { destruct n; [done|lia]. }
  destruct n as [|n]; [done|]. simpl. rewrite IH; [done|lia].
Qed.

Lemma length_TrimSuffix (s suffix : string) :
  (String.length s <= String.length (strings.TrimSuffix s suffix) + String.length suffix)%nat.
Proof.
  unfold strings.TrimSuffix, strings.HasSuffix, strings.slice_to.
  destruct (String.length suffix <=? String.length s)%nat eqn:Hle; simpl; [|lia].
  apply Nat.leb_le in Hle.
  destruct (String.eqb _ suffix); [|lia].
  rewrite length_substring_0; lia.
Qed.

Lemma testfile_of_ne (file : string) : testfile_of file <> file.
Proof.
  intros Heq. apply (f_equal String.length) in Heq.
  unfold testfile_of in Heq. rewrite string_length_app in Heq.
  pose proof (length_TrimSuffix file ".go") as Hlen. simpl in *. lia.
Qed.

(** X3.  The test file is never the target itself, whatever the target
    path: its name always ends in [_test.go].  A target that does not end in
    [.go] gets [_test.go] appended as it stands, which is also the test file
    of that target followed by [.go]: the targets [x] and [x.go] share their
    test file. *)
Theorem testfile_of_apart (file : string) :
  testfile_of file <> file
  /\ strings.HasSuffix (testfile_of file) "_test.go" = true
  /\ (strings.HasSuffix file ".go" = false ->
      testfile_of file = file +:+ "_test.go"
      /\ testfile_of (file +:+ ".go") = testfile_of file).
Proof.
  split; [apply testfile_of_ne|]. split; [apply HasSuffix_app|].
  intros Hno. unfold testfile_of at 1 3, strings.TrimSuffix. rewrite Hno.
  split; [done|]. unfold testfile_of. by rewrite TrimSuffix_app.
Qed.

(** ** When [generate] panics *)

Lemma import_string_empty (imp : ImportSpec) :
  import_string imp = EmptyString <-> Name imp = None /\ Path imp = EmptyString.
Proof.
  unfold import_string. destruct (Name imp) as [name|].
  - split; [|by intros [[=] _]]. by destruct name.
  - split; [by intros ->|by intros [_ ->]].
Qed.

Lemma dedup_myImports_Exists_empty (f : FileSet) :
  Exists (fun im => im = EmptyString) (dedupImports (myImports f)) <->
  Exists (fun imp => Name imp = None /\ Path imp = EmptyString) (Imports f).
Proof using map_range_perm.
  rewrite !Exists_exists. split.
  - intros (im & Him & ->). rewrite elem_of_dedupImports, myImports_eq in Him.
    apply elem_of_cons in Him as [[=]|Him].
    apply list_elem_of_fmap in Him as (imp & Heq & Himp).
    exists imp. split; [done|]. by apply import_string_empty.
  - intros (imp & Himp & Hempty). exists EmptyString. split; [|done].
    apply elem_of_dedupImports. rewrite myImports_eq.
    apply list_elem_of_further, list_elem_of_fmap.
    exists imp. split; [|done]. symmetry. by apply import_string_empty.
Qed.

Lemma generate_panics (f : FileSet) (mode : Method) :
  Exists (fun im => im = EmptyString) (dedupImports (myImports f)) ->
  generate f mode = Panics (index_out_of_range (-1) 0).
Proof.
  intros Hex. unfold generate.
  by rewrite (writeImportHeader_panics _ (dedupImports (myImports f))).
Qed.

Lemma step_thrown {R} (t : thread) (v : panic_value) (w : World) :
  goroutines w = [] -> step t (@Throw R v, w) = None.
Proof. intros Hg. destruct t as [|i]; simpl; [done|]. by rewrite Hg. Qed.

Lemma run_thrown {R} (schedule : list thread) (v : panic_value) (w : World) :
  goroutines w = [] -> run schedule (@Throw R v, w) = (Throw v, w).
Proof.
  intros Hg. unfold run. induction schedule as [|t l IH]; simpl; [done|].
  by rewrite step_thrown.
Qed.

(** X4.  [generate] panics exactly when the file declares an import without
    alias whose path is the empty string, and then with the index [-1] out
    of range; an import with an alias never makes it panic.  The panic comes
    before [PrintTo] is called, and [PrintFile] passes it on at once: it
    makes no call, starts no goroutine, and leaves the world as it was. *)
Theorem generate_panic_iff
    (file : string) (f : FileSet) (mode : Method) (skipFormat : bool) :
  (generate f mode = Panics (index_out_of_range (-1) 0) <->
   Exists (fun imp => Name imp = None /\ Path imp = EmptyString) (Imports f))
  /\ (forall p,
        generate f mode = Panics p ->
        p = index_out_of_range (-1) 0
        /\ PrintFile file f mode skipFormat = Throw p
        /\ (forall tr r,
              runs (PrintFile file f mode skipFormat) tr r -> tr = [] /\ r = Panics p)
        /\ (forall schedule w,
              goroutines w = [] ->
              run schedule (PrintFile file f mode skipFormat, w) = (Throw p, w))).
Proof using map_range_perm.
  assert (forall p, generate f mode = Panics p ->
                    Exists (fun im => im = EmptyString) (dedupImports (myImports f)))
    as Hpanic.
  { intros p Hp.
    destruct (Forall_Exists_dec (fun im => im <> EmptyString) (fun im => im = EmptyString)
                (fun im => match string_dec im EmptyString with
                           | left H => right H
                           | right H => left H
                           end)
                (dedupImports (myImports f))) as [Hall|Hex]; [|done].
    assert (Forall (fun im => im <> EmptyString) (myImports f)) as Hne.
    { rewrite Forall_forall in *. intros im Him. by apply Hall, elem_of_dedupImports. }
    pose proof (generate_returns f mode Hne) as Hgen. simpl in Hgen.
    by rewrite Hgen in Hp. }
  split.
  - rewrite <- dedup_myImports_Exists_empty. split; [apply Hpanic|apply generate_panics].
  - intros p Hp. pose proof (generate_panics f mode (Hpanic p Hp)) as Hp'.
    rewrite Hp in Hp'. injection Hp' as ->.
    assert (PrintFile file f mode skipFormat = Throw (index_out_of_range (-1) 0)) as HPF.
    { unfold PrintFile. by rewrite Hp. }
    split; [done|]. split; [done|]. rewrite HPF.
    split; [by intros tr r [-> ->]|]. intros schedule w Hg. by apply run_thrown.
Qed.

(** ** The lines of the import block *)

Lemma import_lines_app (l1 l2 : list string) :
  import_lines (l1 ++ l2) = import_lines l1 +:+ import_lines l2.
Proof.
  induction l1 as [|im l1 IH]; simpl; [done|].
  by rewrite IH, string_app_assoc.
Qed.

Lemma import_lines_elem (im : string) (l : list string) :
  im ∈ l -> exists pre post, import_lines l = pre +:+ import_line im +:+ post.
Proof.
  intros (l1 & l2 & ->)%list_elem_of_split.
  exists (import_lines l1), (import_lines l2). by rewrite import_lines_app.
Qed.

Lemma string_get_app_last (s t : string) (c : ascii) :
  String.get (String.length s) (s +:+ String c t) = Some c.
Proof.
  induction s as [|x s IH]; [done|]. rewrite string_app_cons. simpl. apply IH.
Qed.

Lemma import_line_verbatim (s : string) :
  import_line (s +:+ dq) = tab +:+ (s +:+ dq) +:+ nl.
Proof.
  unfold import_line. rewrite string_length_app. simpl.
  replace (String.length s + 1 - 1)%nat with (String.length s) by lia.
  unfold dq. by rewrite string_get_app_last, Ascii.eqb_refl.
Qed.

(** X5.  Whatever the file declares and whatever the order of [range], the
    implementation buffer [generate] returns imports the runtime package:
    it holds the line of the quoted runtime path.  It also holds the line
    of every declared import; when the path literal of the import ends with
    a double quote, that line is the import as the source has it, a tab,
    the alias and a space when there is an alias, the literal, a line end:
    nothing is quoted a second time. *)
Theorem generate_lists_every_import (f : FileSet) (mode : Method) :
  Forall (fun im => im <> EmptyString) (myImports f) ->
  exists out tests err,
    generate f mode = Returns (out, tests, err)
    /\ (exists pre post,
          out = pre +:+ tab +:+ strconv_Quote "github.com/algorand/msgp/msgp" +:+ nl
                    +:+ post)
    /\ (forall imp,
          imp ∈ Imports f ->
          (exists pre post, out = pre +:+ import_line (import_string imp) +:+ post)
          /\ (forall literal,
                Path imp = literal +:+ dq ->
                import_line (import_string imp) =
                tab +:+ match Name imp with
                        | Some name => name +:+ " " +:+ Path imp
                        | None => Path imp
                        end +:+ nl)).
Proof using map_range_perm.
  intros Hne. pose proof (generate_returns f mode Hne) as Hgen. simpl in Hgen.
  eexists _, _, _. split; [exact Hgen|].
  assert (forall im, im ∈ myImports f ->
            exists pre post,
              package_header (Package f) +:+
              import_block (dedupImports (myImports f)) +:+
              match PrintTo_err (PrintTo f mode (wants_tests mode)) with
              | Some _ => EmptyString
              | None => topics_Bytes (PrintTo f mode (wants_tests mode)) +:+
                        funcbuf_Bytes (PrintTo f mode (wants_tests mode))
              end = pre +:+ import_line im +:+ post) as Hline.
  { intros im Him. rewrite <- elem_of_dedupImports in Him.
    apply import_lines_elem in Him as (pre & post & Hlines).
    eexists (package_header (Package f) +:+ "import (" +:+ nl +:+ pre), _.
    unfold import_block. rewrite Hlines, !string_app_assoc. reflexivity. }
  split.
  - destruct (Hline "github.com/algorand/msgp/msgp") as (pre & post & Hout).
    { rewrite myImports_eq. apply list_elem_of_here. }
    exists pre, post. rewrite Hout. unfold import_line. simpl.
    by rewrite !string_app_assoc.
  - intros imp Himp. split.
    + apply Hline. rewrite myImports_eq. apply list_elem_of_further.
      by apply list_elem_of_fmap_2.
    + intros literal Hlit. fold (import_string imp).
      assert (import_string imp =
              match Name imp with
              | Some name => name +:+ " " +:+ literal
              | None => literal
              end +:+ dq) as ->.
      { unfold import_string. rewrite Hlit.
        destruct (Name imp); by rewrite ?string_app_assoc. }
      apply import_line_verbatim.
Qed.

(** ** The caller and the goroutine together *)

Lemma within_le {R} (n m : nat) (p : prog R) :
  within n p -> (n <= m)%nat -> within m p.
Proof.
  revert n m. induction p as [r|v|X e k IH]; intros n m Hw Hle; simpl in *; try done.
  destruct n as [|n]; [done|]. destruct m as [|m]; [lia|].
  intros x. apply (IH x n); [apply Hw|lia].
Qed.

Lemma within_0_final {R} (p : prog R) : within 0 p <-> is_final p.
Proof. by destruct p. Qed.

Lemma io_only_bind {A B} (k : A -> prog B) (p : prog A) :
  io_only p -> (forall a, io_only (k a)) -> io_only (prog_bind k p).
Proof.
  intros Hp Hk. induction p as [r|v|X e h IH]; simpl in *; [apply Hk|done|].
  destruct Hp as [He Hh]. split; [done|]. intros x. by apply IH.
Qed.

Lemma awaits_bind {A} (c : chan) (k : A -> prog (option error)) (p : prog A) :
  io_only p -> (forall a, awaits c (k a)) -> awaits c (prog_bind k p).
Proof.
  intros Hp Hk. induction p as [r|v|X e h IH]; simpl in *; [apply Hk|done|].
  destruct Hp as [He Hh]. left. split; [done|]. intros x. by apply IH.
Qed.

Lemma sends_bind {A} (c : chan) (k : A -> prog unit) (p : prog A) :
  io_only p -> (forall a, sends c (k a)) -> sends c (prog_bind k p).
Proof.
  intros Hp Hk. induction p as [r|v|X e h IH]; simpl in *; [apply Hk|done|].
  destruct Hp as [He Hh]. left. split; [done|]. intros x. by apply IH.
Qed.

Lemma within_bind {A B} (n m : nat) (k : A -> prog B) (p : prog A) :
  within n p -> (forall a, within m (k a)) -> within (n + m) (prog_bind k p).
Proof.
  intros Hp Hk. revert n Hp.
  induction p as [r|v|X e h IH]; intros n Hp; simpl in *.
  - apply (within_le m); [apply Hk|lia].
  - done.
  - destruct n as [|n]; [done|]. simpl. intros x. by apply IH.
Qed.

Lemma format_io_only (file data : string) (skipFormat : bool) :
  io_only (format file data skipFormat).
Proof.
  unfold format, call, mbind, mret, prog_mbind, prog_ret.
  destruct skipFormat; simpl; [done|].
  split; [done|]. intros [src [err|]]; simpl; [done|].
  split; [done|]. intros [err|]; simpl; [done|].
  split; [done|]. by intros [err|].
Qed.

Lemma format_within (file data : string) (skipFormat : bool) :
  within 3 (format file data skipFormat).
Proof.
  unfold format, call, mbind, mret, prog_mbind, prog_ret.
  destruct skipFormat; simpl; [done|].
  intros [src [err|]]; simpl; [done|].
  intros [err|]; simpl; [done|]. by intros [err|].
Qed.

Lemma closure_body_sends (file data : string) (c : chan) (skipFormat : bool) :
  sends c (closure_body (goformat_func file data c skipFormat)).
Proof.
  unfold closure_body, mbind, prog_mbind.
  apply sends_bind; [apply format_io_only|].
  intros r. simpl. right. split; [done|]. by intros [].
Qed.

Lemma closure_body_within (file data : string) (c : chan) (skipFormat : bool) :
  within 5 (closure_body (goformat_func file data c skipFormat)).
Proof.
  unfold closure_body, mbind, prog_mbind.
  apply (within_bind 3 2); [apply format_within|].
  intros r. simpl. by intros [].
Qed.

Lemma await_awaits (c : chan) : awaits c (await c).
Proof. simpl. right. split; [done|]. intros [err|]; by eexists. Qed.

Lemma join_caller_awaits (file : string) (tests : option bytes.Buffer)
    (skipFormat : bool) (c : chan) :
  awaits c (join_caller file tests skipFormat c).
Proof.
  unfold join_caller. destruct tests as [tests|]; [|apply await_awaits].
  apply awaits_bind; [apply format_io_only|].
  intros [err|]; [done|]. left. split; [done|]. intros _. apply await_awaits.
Qed.

Lemma join_caller_within (file : string) (tests : option bytes.Buffer)
    (skipFormat : bool) (c : chan) :
  within 5 (join_caller file tests skipFormat c).
Proof.
  unfold join_caller. destruct tests as [tests|]; [|by intros [err|]].
  apply (within_bind 3 2); [apply format_within|].
  intros [err|]; [done|]. simpl. by intros _ [err|].
Qed.

Lemma PrintFile_join (file : string) (f : FileSet) (mode : Method) (skipFormat : bool)
    (out : bytes.Buffer) (tests : option bytes.Buffer) :
  generate f mode = Returns (out, tests, None) ->
  PrintFile file f mode skipFormat = join file out tests skipFormat.
Proof. intros Hgen. unfold PrintFile. rewrite Hgen. by destruct tests. Qed.

Lemma handle_io {X} (e : event X) (w : World) :
  is_io e ->
  exists x w', handle e w = Some (x, w')
               /\ chans w' = chans w /\ goroutines w' = goroutines w.
Proof.
  destruct e; simpl; try done; intros _.
  - by eexists _, _.
  - destruct (WriteFile_failure env filename data (fs w)) as [[err files]|];
      by eexists _, _.
  - by eexists _, _.
  - by eexists _, _.
Qed.

Lemma started_step_caller (c : chan) (nc ng : nat) (m m' : prog (option error) * World) :
  started c nc ng m -> step caller m = Some m' -> started c (pred nc) ng m'.
Proof.
  destruct m as [p w]. intros (g & queue & Hg & Hc & Hnc & Hng & Hst) Hstep.
  simpl in *. destruct p as [r|v|X e k]; try done.
  assert (awaits c (Vis e k)) as Haw.
  { destruct Hst as [(_ & _ & H)|(_ & [[_ H]|[_ [r [=]]]])]; done. }
  destruct nc as [|nc]; [done|]. simpl in Hnc |- *.
  destruct Haw as [[Hio Hk]|[Hrecv Hk]].
  - destruct (handle_io e w Hio) as (x & w' & Hh & Hcs & Hgs).
    rewrite Hh in Hstep. injection Hstep as <-.
    exists g, queue. simpl. rewrite Hcs, Hgs.
    split; [done|]. split; [done|]. split; [apply Hnc|]. split; [done|].
    destruct Hst as [(Hs & Hq & _)|(Hgio & [[Hq _]|[_ [r [=]]]])].
    + left. split; [done|]. split; [done|]. apply Hk.
    + right. split; [done|]. left. split; [done|]. apply Hk.
  - destruct e; try done. simpl in Hrecv. subst c0. simpl in Hstep.
    rewrite Hc in Hstep.
    destruct Hst as [(_ & -> & _)|(Hgio & [[[v ->] _]|[_ [r [=]]]])]; [done|].
    injection Hstep as <-. destruct (Hk v) as [r Hr].
    exists g, []. simpl.
    split; [done|].
    split; [apply list_lookup_insert_eq; by eapply lookup_lt_Some|].
    split; [apply Hnc|]. split; [done|].
    right. split; [done|]. right. split; [done|]. by exists r.
Qed.

Lemma started_step_goroutine (c : chan) (nc ng i : nat)
    (m m' : prog (option error) * World) :
  started c nc ng m -> step (goroutine i) m = Some m' -> started c nc (pred ng) m'.
Proof.
  destruct m as [p w]. intros (g & queue & Hg & Hc & Hnc & Hng & Hst) Hstep.
  simpl in *. rewrite Hg in Hstep. destruct i as [|i]; [|done]. simpl in Hstep.
  destruct g as [r|v|X e k]; try done.
  destruct ng as [|ng]; [done|]. simpl in Hng |- *.
  destruct Hst as [(Hs & -> & Haw)|(Hio & Hrest)].
  - destruct Hs as [[Hio Hk]|[Hsend Hk]].
    + destruct (handle_io e w Hio) as (x & w' & Hh & Hcs & Hgs).
      rewrite Hh in Hstep. injection Hstep as <-.
      exists (k x), []. simpl. rewrite Hgs, Hg, Hcs.
      split; [done|]. split; [done|]. split; [done|]. split; [apply Hng|].
      left. split; [apply Hk|done].
    + destruct e; try done. simpl in Hsend. subst c0. simpl in Hstep.
      rewrite Hc in Hstep. simpl in Hstep. injection Hstep as <-.
      exists (k tt), [v]. simpl. rewrite Hg.
      split; [done|].
      split; [apply list_lookup_insert_eq; by eapply lookup_lt_Some|].
      split; [done|]. split; [apply Hng|].
      right. split; [apply Hk|]. left. split; [by exists v|done].
  - destruct Hio as [Hio Hk].
    destruct (handle_io e w Hio) as (x & w' & Hh & Hcs & Hgs).
    rewrite Hh in Hstep. injection Hstep as <-.
    exists (k x), queue. simpl. rewrite Hgs, Hg, Hcs.
    split; [done|]. split; [done|]. split; [done|]. split; [apply Hng|].
    right. split; [apply Hk|done].
Qed.

Lemma started_goroutine_moves (c : chan) (nc ng : nat) (m : prog (option error) * World)
    (g : prog unit) :
  started c nc ng m -> goroutines m.2 !! 0%nat = Some g ->
  is_final g \/ is_Some (step (goroutine 0) m).
Proof.
  destruct m as [p w]. intros (g' & queue & Hg & Hc & _ & _ & Hst). simpl in *.
  rewrite Hg. intros [= <-]. destruct g' as [r|v|X e k]; [by left..|]. right.
  simpl.
  destruct Hst as [([[Hio _]|[Hsend _]] & -> & _)|([Hio _] & _)].
  - destruct (handle_io e w Hio) as (x & w' & Hh & _). by rewrite Hh.
  - destruct e; try done. simpl in Hsend. subst c0. simpl. by rewrite Hc.
  - destruct (handle_io e w Hio) as (x & w' & Hh & _). by rewrite Hh.
Qed.

Lemma started_caller_moves (c : chan) (nc ng : nat) (m : prog (option error) * World) :
  started c nc ng m ->
  (exists r, m.1 = Ret r) \/ is_Some (step caller m)
  \/ exists g, goroutines m.2 = [g] /\ sends c g.
Proof.
  destruct m as [p w]. intros (g & queue & Hg & Hc & _ & _ & Hst). simpl in *.
  destruct Hst as [(Hs & _)|(_ & [[[v ->] Haw]|[_ Hr]])]; [by eauto| |by left].
  destruct p as [r|v'|X e k]; [by eauto|done|]. right. left.
  unfold step. simpl.
  destruct Haw as [[Hio _]|[Hrecv _]].
  - destruct (handle_io e w Hio) as (x & w' & Hh & _). by rewrite Hh.
  - destruct e; try done. simpl in Hrecv. subst c0. simpl. by rewrite Hc.
Qed.

Section reach.
Variables (file : string) (out : bytes.Buffer) (tests : option bytes.Buffer).
Variables (skipFormat : bool) (w0 : World).
Hypothesis alone : goroutines w0 = [].

Lemma lookup_new_chan (size : nat) :
  (chans w0 ++ [(size, [])]) !! length (chans w0) = Some (size, @nil (option error)).
Proof. by rewrite lookup_app_r, Nat.sub_diag. Qed.

Lemma started_after_go :
  started (length (chans w0)) 5 5
    (join_caller file tests skipFormat (length (chans w0)),
     set_goroutines
       [closure_body (goformat_func file out (length (chans w0)) skipFormat)]
       (set_chans (chans w0 ++ [(1%nat, [])]) w0)).
Proof.
  exists (closure_body (goformat_func file out (length (chans w0)) skipFormat)), [].
  simpl.
  split; [done|]. split; [apply lookup_new_chan|].
  split; [apply join_caller_within|]. split; [apply closure_body_within|].
  left. split; [apply closure_body_sends|]. split; [done|apply join_caller_awaits].
Qed.

Lemma step_join :
  step caller (join file out tests skipFormat, w0) =
  Some (join_go file out tests skipFormat (length (chans w0)),
        set_chans (chans w0 ++ [(1%nat, [])]) w0).
Proof. done. Qed.

Lemma step_join_go :
  step caller (join_go file out tests skipFormat (length (chans w0)),
               set_chans (chans w0 ++ [(1%nat, [])]) w0) =
  Some (join_caller file tests skipFormat (length (chans w0)),
        set_goroutines
          [closure_body (goformat_func file out (length (chans w0)) skipFormat)]
          (set_chans (chans w0 ++ [(1%nat, [])]) w0)).
Proof using alone. simpl. by rewrite alone. Qed.

Lemma reach_step (t : thread) (m m' : prog (option error) * World) :
  reach file out tests skipFormat w0 m -> step t m = Some m' ->
  reach file out tests skipFormat w0 m'.
Proof using alone.
  intros [->|[->|(nc & ng & Hnc & Hng & Hst)]] Hstep.
  - destruct t as [|i]; simpl in Hstep; [|by rewrite alone in Hstep].
    injection Hstep as <-. right. by left.
  - destruct t as [|i]; [|by simpl in Hstep; rewrite alone in Hstep].
    rewrite step_join_go in Hstep. injection Hstep as <-.
    right. right. exists 5%nat, 5%nat.
    split; [done|]. split; [done|]. apply started_after_go.
  - right. right. destruct t as [|i].
    + exists (pred nc), ng. split; [lia|]. split; [done|].
      by eapply started_step_caller.
    + exists nc, (pred ng). split; [done|]. split; [lia|].
      by eapply started_step_goroutine.
Qed.

Lemma reach_run (schedule : list thread) (m : prog (option error) * World) :
  reach file out tests skipFormat w0 m ->
  reach file out tests skipFormat w0 (run schedule m).
Proof using alone.
  revert m. induction schedule as [|t l IH]; intros m Hm; [done|].
  unfold run. simpl. apply IH.
  destruct (step t m) as [m'|] eqn:Hstep; [|done]. by eapply reach_step.
Qed.

Lemma reach_safe (m : prog (option error) * World) :
  reach file out tests skipFormat w0 m ->
  (length (goroutines m.2) <= 1)%nat
  /\ (forall i g, goroutines m.2 !! i = Some g ->
                  is_final g \/ is_Some (step (goroutine i) m))
  /\ (forall size queue,
        chans m.2 !! length (chans w0) = Some (size, queue) ->
        size = 1%nat /\ (length queue <= 1)%nat)
  /\ (is_final m.1 \/ is_Some (step caller m) \/ is_Some (step (goroutine 0) m)).
Proof using alone.
  intros [->|[->|(nc & ng & Hnc & Hng & Hst)]].
  - simpl. rewrite alone. split; [simpl; lia|]. split; [done|]. split.
    + intros size queue Hlookup. apply lookup_lt_Some in Hlookup. lia.
    + right. left. by eexists.
  - simpl. rewrite alone. split; [simpl; lia|]. split; [done|]. split.
    + intros size queue. rewrite lookup_new_chan. intros [= <- <-].
      split; [done|simpl; lia].
    + right. left. by eexists.
  - pose proof Hst as (g & queue & Hg & Hc & _ & _ & Hq).
    rewrite Hg. split; [done|]. split; [|split].
    + intros [|i] g' Hi; [|done].
      eapply started_goroutine_moves; [done|]. by rewrite Hg.
    + intros size queue' Hlookup.
      pose proof (eq_trans (eq_sym Hlookup) Hc) as [= -> ->]. split; [done|].
      destruct Hq as [(_ & -> & _)|(_ & [[[v ->] _]|[-> _]])]; simpl; lia.
    + destruct (started_caller_moves _ _ _ _ Hst) as [[r ->]|[Hmove|(g' & Hg' & Hs)]];
        [by left|by right; left|].
      right. right.
      destruct (started_goroutine_moves _ _ _ _ g' Hst) as [Hfin|Hmove]; [|by destruct g'|done].
      by rewrite Hg'.
Qed.

End reach.

Lemma PrintFile_cases (file : string) (f : FileSet) (mode : Method) (skipFormat : bool) :
  (exists p, PrintFile file f mode skipFormat = Throw p)
  \/ (exists e, PrintFile file f mode skipFormat = Ret (Some e))
  \/ (exists out tests,
        generate f mode = Returns (out, tests, None)
        /\ PrintFile file f mode skipFormat = join file out tests skipFormat).
Proof.
  destruct (generate f mode) as [[[out tests] [e|]]|p] eqn:Hgen.
  - right. left. exists e. unfold PrintFile. by rewrite Hgen.
  - right. right. exists out, tests. split; [done|]. by apply PrintFile_join.
  - left. exists p. unfold PrintFile. by rewrite Hgen.
Qed.

(** X6.  The goroutine of [goformat] is never kept waiting: under every
    schedule, and whether the caller has received, has yet to receive or
    has returned early, the goroutine has ended or can make its next call.
    The channel has room for one value and never holds more; [PrintFile]
    starts one goroutine at most; and as long as the caller has not ended,
    the caller or the goroutine can move. *)
Theorem PrintFile_goroutine_never_waits
    (file : string) (f : FileSet) (mode : Method) (skipFormat : bool)
    (schedule : list thread) (w0 : World) :
  goroutines w0 = [] ->
  let m := run schedule (PrintFile file f mode skipFormat, w0) in
  (length (goroutines m.2) <= 1)%nat
  /\ (forall i g, goroutines m.2 !! i = Some g ->
                  is_final g \/ is_Some (step (goroutine i) m))
  /\ (forall size queue,
        chans m.2 !! length (chans w0) = Some (size, queue) ->
        size = 1%nat /\ (length queue <= 1)%nat)
  /\ (is_final m.1 \/ is_Some (step caller m) \/ is_Some (step (goroutine 0) m)).
Proof.
  intros Halone m. subst m.
  assert (forall p : prog (option error), is_final p ->
            let m := (p, w0) in
            (length (goroutines m.2) <= 1)%nat
            /\ (forall i g, goroutines m.2 !! i = Some g ->
                            is_final g \/ is_Some (step (goroutine i) m))
            /\ (forall size queue,
                  chans m.2 !! length (chans w0) = Some (size, queue) ->
                  size = 1%nat /\ (length queue <= 1)%nat)
            /\ (is_final m.1 \/ is_Some (step caller m)
                \/ is_Some (step (goroutine 0) m))) as Hended.
  { intros p Hp. simpl. rewrite Halone. split; [simpl; lia|]. split; [done|].
    split; [|by left]. intros size queue Hlookup. apply lookup_lt_Some in Hlookup. lia. }
  destruct (PrintFile_cases file f mode skipFormat)
    as [[p ->]|[[e ->]|(out & tests & _ & ->)]].
  - rewrite run_thrown by done. by apply Hended.
  - rewrite run_returned by done. by apply Hended.
  - apply (reach_safe file out tests skipFormat w0 Halone), reach_run; [done|by left].
Qed.


(** ** Every call comes to its end *)

Lemma run_app {R} (l1 l2 : list thread) (m : prog R * World) :
  run (l1 ++ l2) m = run l2 (run l1 m).
Proof. apply foldl_app. Qed.

Lemma run_cons {R} (t : thread) (l : list thread) (m : prog R * World) :
  run (t :: l) m = run l (default m (step t m)).
Proof. done. Qed.

Lemma run_cons_Some {R} (t : thread) (l : list thread) (m m' : prog R * World) :
  step t m = Some m' -> run (t :: l) m = run l m'.
Proof. intros Hstep. by rewrite run_cons, Hstep. Qed.

Lemma started_weaken (c : chan) (nc ng nc' ng' : nat) (m : prog (option error) * World) :
  started c nc ng m ->
  within nc' m.1 -> (forall g, goroutines m.2 = [g] -> within ng' g) ->
  started c nc' ng' m.
Proof.
  intros (g & queue & Hg & Hc & _ & _ & Hst) Hnc Hng.
  exists g, queue. split; [done|]. split; [done|]. split; [done|].
  split; [by apply Hng|done].
Qed.

Lemma started_run (c : chan) (schedule : list thread) :
  forall nc ng m, started c nc ng m ->
                  exists nc' ng', (nc' <= nc)%nat /\ (ng' <= ng)%nat
                                  /\ started c nc' ng' (run schedule m).
Proof.
  induction schedule as [|t l IH]; intros nc ng m Hst; [by exists nc, ng|].
  rewrite run_cons. destruct (step t m) as [m'|] eqn:Hstep; simpl; [|by apply IH].
  destruct t as [|i].
  - apply started_step_caller with (m' := m') in Hst; [|done].
    destruct (IH _ _ _ Hst) as (nc' & ng' & ? & ? & ?).
    exists nc', ng'. split; [lia|done].
  - apply started_step_goroutine with (i := i) (m' := m') in Hst; [|done].
    destruct (IH _ _ _ Hst) as (nc' & ng' & ? & ? & ?).
    exists nc', ng'. split; [done|]. split; [lia|done].
Qed.

Lemma started_run_goroutine (c : chan) (nc n : nat) :
  forall ng m, started c nc ng m -> (ng <= n)%nat ->
               started c nc 0 (run (replicate n (goroutine 0)) m).
Proof.
  induction n as [|n IH]; intros ng m Hst Hle.
  { by replace ng with 0%nat in Hst by lia. }
  change (replicate (S n) (goroutine 0)) with (goroutine 0 :: replicate n (goroutine 0)).
  rewrite run_cons. destruct (step (goroutine 0) m) as [m'|] eqn:Hstep; simpl.
  - apply (IH (pred ng)); [by eapply started_step_goroutine|lia].
  - apply (IH 0%nat); [|lia].
    pose proof Hst as (g & queue & Hg & _ & Hnc & _).
    apply (started_weaken c nc ng); [done..|].
    intros g' Hg'. apply within_0_final.
    destruct (started_goroutine_moves c nc ng m g' Hst) as [Hfin|Hmove]; [|done|].
    + by rewrite Hg'.
    + rewrite Hstep in Hmove. by destruct Hmove.
Qed.

Lemma started_run_caller (c : chan) (n : nat) :
  forall nc m, started c nc 0 m -> (nc <= n)%nat ->
               started c 0 0 (run (replicate n caller) m).
Proof.
  induction n as [|n IH]; intros nc m Hst Hle.
  { by replace nc with 0%nat in Hst by lia. }
  change (replicate (S n) caller) with (caller :: replicate n caller).
  rewrite run_cons. destruct (step caller m) as [m'|] eqn:Hstep; simpl.
  - apply (IH (pred nc)); [by eapply started_step_caller|lia].
  - apply (IH 0%nat); [|lia].
    pose proof Hst as (g & queue & Hg & _ & _ & Hng & _).
    apply (started_weaken c nc 0); [done| |by intros g' [= <-]%(eq_trans (eq_sym Hg))].
    destruct (started_caller_moves c nc 0 m Hst) as [[r ->]|[Hmove|(g' & Hg' & Hs)]].
    + done.
    + rewrite Hstep in Hmove. by destruct Hmove.
    + rewrite Hg in Hg'. injection Hg' as <-. by destruct g.
Qed.

Lemma started_ended (c : chan) (m : prog (option error) * World) :
  started c 0 0 m -> (exists r, m.1 = Ret r) /\ goroutines m.2 = [Ret tt].
Proof.
  intros (g & queue & Hg & _ & Hnc & Hng & Hst). rewrite Hg. split.
  - destruct Hst as [(Hs & _)|(_ & [[_ Haw]|[_ Hr]])]; [by destruct g| |done].
    destruct m.1 as [r|v|X e k]; [by exists r|done..].
  - destruct Hst as [(Hs & _)|(Hio & _)]; [by destruct g|].
    by destruct g as [[]|v|X e k].
Qed.

(** X7.  No call of [PrintFile] hangs, and no goroutine is left behind:
    from wherever a schedule has brought the call, letting the caller make
    two calls, the goroutine five and the caller seven more brings the
    caller to its return (or the panic of [generate]) and the goroutine to
    its end, and nothing can move after that.  This holds as well when the
    caller returns the error of the test file without receiving. *)
Theorem PrintFile_completes
    (file : string) (f : FileSet) (mode : Method) (skipFormat : bool)
    (schedule : list thread) (w0 : World) :
  goroutines w0 = [] ->
  let m := run (schedule ++ completion) (PrintFile file f mode skipFormat, w0) in
  is_final m.1
  /\ Forall (fun g => g = Ret tt) (goroutines m.2)
  /\ (forall t, step t m = None).
Proof.
  intros Halone m. subst m.
  destruct (PrintFile_cases file f mode skipFormat)
    as [[p ->]|[[e ->]|(out & tests & _ & ->)]].
  - rewrite run_thrown by done. simpl. rewrite Halone.
    split; [done|]. split; [done|]. intros t. by apply step_thrown.
  - rewrite run_returned by done. simpl. rewrite Halone.
    split; [done|]. split; [done|]. intros t. by apply step_returned.
  - rewrite run_app.
    assert (reach file out tests skipFormat w0
              (run schedule (join file out tests skipFormat, w0))) as Hreach.
    { apply reach_run; [done|by left]. }
    revert Hreach. generalize (run schedule (join file out tests skipFormat, w0)).
    intros m Hreach. unfold completion. rewrite !run_app.
    assert (exists nc ng, (nc <= 5)%nat /\ (ng <= 5)%nat
                          /\ started (length (chans w0)) nc ng (run [caller; caller] m))
      as (nc & ng & Hnc & Hng & Hst).
    { destruct Hreach as [->|[->|(nc & ng & Hnc & Hng & Hst)]].
      - rewrite (run_cons_Some _ _ _ _ (step_join file out tests skipFormat w0)).
        rewrite (run_cons_Some _ _ _ _ (step_join_go file out tests skipFormat w0 Halone)).
        exists 5%nat, 5%nat. split; [done|]. split; [done|]. apply started_after_go.
      - rewrite (run_cons_Some _ _ _ _ (step_join_go file out tests skipFormat w0 Halone)).
        destruct (started_run (length (chans w0)) [caller] _ _ _
                    (started_after_go file out tests skipFormat w0))
          as (nc & ng & ? & ? & ?).
        by exists nc, ng.
      - destruct (started_run (length (chans w0)) [caller; caller] _ _ _ Hst)
          as (nc' & ng' & ? & ? & ?).
        exists nc', ng'. split; [lia|]. split; [lia|done]. }
    apply started_run_goroutine with (n := 5%nat) in Hst; [|done].
    apply started_run_caller with (n := 7%nat) in Hst; [|lia].
    apply started_ended in Hst as [[r Hr] Hg].
    rewrite Hr, Hg. split; [done|]. split; [by constructor|].
    intros [|[|i]]; unfold step; by rewrite ?Hr, ?Hg.
Qed.

(** ** The files on disk when formatting is skipped *)

Lemma sent_formatted (gp : goroutine_pos) (r : option error) :
  sent gp = Some r -> formatted gp = Some r.
Proof. by destruct gp. Qed.

Lemma queue_of_waiting (cp : caller_pos) (gp : goroutine_pos) :
  (forall r, cp <> c_got r) ->
  queue_of cp gp = match sent gp with Some v => [v] | None => [] end.
Proof. intros Hcp. unfold queue_of. destruct (sent gp), cp; try done. by destruct (Hcp r). Qed.

Lemma join_inv_step_caller (file : string) (out : bytes.Buffer)
    (tests : option bytes.Buffer) (c : chan) (cp : caller_pos) (gp : goroutine_pos)
    (w : World) (m' : prog (option error) * World) :
  join_inv file out tests c cp gp w ->
  step caller (caller_prog file tests c cp, w) = Some m' ->
  exists cp', m'.1 = caller_prog file tests c cp'
              /\ join_inv file out tests c cp' gp m'.2.
Proof.
  intros (Hg & Hc & Hfile & Htest & Hgot & Hwr) Hstep.
  destruct cp as [| | |e|r]; simpl in Hstep; try done.
  - destruct (WriteFile_failure env _ _ (fs w)) as [[err files]|] eqn:Hfail;
      injection Hstep as <-.
    + exists (c_failed err). split; [done|].
      split; [done|]. split; [by rewrite queue_of_waiting in Hc |- *|].
      split; [by intros _ []|]. split; [by intros []|]. split; [done|done].
    + exists c_line. split; [done|].
      split; [done|]. split; [by rewrite queue_of_waiting in Hc |- *|].
      split; [|split; [|done]].
      * intros Hf _. simpl. rewrite lookup_write_file_ne by apply testfile_of_ne.
        apply Hfile; [done|by intros []].
      * intros _ _ t ->. simpl. apply lookup_write_file.
  - injection Hstep as <-. exists c_recv. split; [done|].
    split; [done|]. split; [by rewrite queue_of_waiting in Hc |- *|].
    split; [intros ? _; apply Hfile; [done|by intros []]|]. split; [done|done].
  - unfold chan in *. rewrite Hc in Hstep. rewrite queue_of_waiting in Hstep by done.
    destruct (sent gp) as [v|] eqn:Hsent; [|done]. injection Hstep as <-.
    exists (c_got v). split; [by destruct v|].
    split; [done|]. split; [|split; [intros ? _; apply Hfile; [done|by intros []]|]].
    + simpl. unfold queue_of. rewrite Hsent.
      apply list_lookup_insert_eq. by eapply lookup_lt_Some.
    + split; [done|]. split; [by intros r [= <-]|done].
Qed.

Lemma join_inv_step_goroutine (file : string) (out : bytes.Buffer)
    (tests : option bytes.Buffer) (c : chan) (cp : caller_pos) (gp : goroutine_pos)
    (i : nat) (p : prog (option error)) (w : World) (m' : prog (option error) * World) :
  join_inv file out tests c cp gp w ->
  step (goroutine i) (p, w) = Some m' ->
  exists gp', m'.1 = p /\ join_inv file out tests c cp gp' m'.2.
Proof.
  intros (Hg & Hc & Hfile & Htest & Hgot & Hwr) Hstep.
  simpl in Hstep. rewrite Hg in Hstep. destruct i as [|i]; [|done].
  assert (sent gp = None -> forall r, cp <> c_got r) as Hcp.
  { intros Hsent r ->. specialize (Hgot r eq_refl). by rewrite Hsent in Hgot. }
  destruct gp as [|r|r|r]; simpl in Hstep; try done.
  - specialize (Hcp eq_refl).
    destruct (WriteFile_failure env _ _ (fs w)) as [[err files]|] eqn:Hfail;
      injection Hstep as <-; simpl; rewrite Hg.
    + exists (g_send (Some err)). split; [done|].
      split; [done|]. split; [done|]. split; [done|].
      split; [by intros _ H; destruct (H err)|]. split; [|done].
      intros r Hr. by destruct (Hcp r).
    + exists (g_send None). split; [done|].
      split; [done|]. split; [done|].
      split; [intros _ _; apply lookup_write_file|]. split; [|split; [|done]].
      * intros Hw _ t Ht. simpl.
        rewrite lookup_write_file_ne by (intros Heq; by apply (testfile_of_ne file)).
        by apply Htest.
      * intros r Hr. by destruct (Hcp r).
  - specialize (Hcp eq_refl).
    unfold chan in *. rewrite Hc in Hstep. rewrite queue_of_waiting in Hstep by done.
    simpl in Hstep. injection Hstep as <-. simpl. rewrite Hg.
    exists (g_line r). split; [done|].
    split; [done|]. split.
    { simpl. rewrite queue_of_waiting by done. simpl.
      apply list_lookup_insert_eq. by eapply lookup_lt_Some. }
    split; [done|]. split; [done|]. split; [|done].
    intros r' Hr. by destruct (Hcp r').
  - injection Hstep as <-. simpl. rewrite Hg.
    exists (g_done r). split; [done|].
    split; [done|]. split; [done|].
    split; [done|]. split; [done|]. split; [done|done].
Qed.

Section skip.
Variables (file : string) (out : bytes.Buffer) (tests : option bytes.Buffer).
Variable w0 : World.
Hypothesis alone : goroutines w0 = [].

Lemma reach_skip_step (t : thread) (m m' : prog (option error) * World) :
  reach_skip file out tests w0 m -> step t m = Some m' ->
  reach_skip file out tests w0 m'.
Proof using alone.
  intros [->|[->|(cp & gp & Hp & Hinv)]] Hstep.
  - destruct t as [|i]; simpl in Hstep; [|by rewrite alone in Hstep].
    injection Hstep as <-. right. by left.
  - destruct t as [|i]; [|by simpl in Hstep; rewrite alone in Hstep].
    rewrite step_join_go in Hstep by done. injection Hstep as <-.
    right. right. simpl.
    exists (match tests with Some _ => c_write | None => c_recv end), g_write.
    split; [by destruct tests|].
    split; [done|]. split; [apply lookup_new_chan|].
    split; [done|]. split; [by destruct tests|]. split; [by destruct tests|].
    by destruct tests.
  - right. right. destruct m as [p w]. simpl in Hp, Hinv. subst p. destruct t as [|i].
    + destruct (join_inv_step_caller _ _ _ _ _ _ _ _ Hinv Hstep) as (cp' & ? & ?).
      by exists cp', gp.
    + destruct (join_inv_step_goroutine _ _ _ _ _ _ _ _ _ _ Hinv Hstep) as (gp' & ? & ?).
      by exists cp, gp'.
Qed.

Lemma reach_skip_run (schedule : list thread) (m : prog (option error) * World) :
  reach_skip file out tests w0 m -> reach_skip file out tests w0 (run schedule m).
Proof using alone.
  revert m. induction schedule as [|t l IH]; intros m Hm; [done|].
  rewrite run_cons. apply IH.
  destruct (step t m) as [m'|] eqn:Hstep; [|done]. by eapply reach_skip_step.
Qed.

End skip.

(** X8.  With [skipFormat] set, a call of [PrintFile] that has returned
    [nil] has left the buffers of [generate] on disk, whatever the order in
    which the caller and the goroutine took their turns: the target holds
    the implementation buffer, and the test file, when tests were asked
    for, the test buffer, byte for byte. *)
Theorem PrintFile_skip_success_on_disk
    (file : string) (f : FileSet) (mode : Method)
    (schedule : list thread) (w0 w' : World) :
  goroutines w0 = [] ->
  run schedule (PrintFile file f mode true, w0) = (Ret None, w') ->
  exists out tests,
    generate f mode = Returns (out, tests, None)
    /\ content <$> fs w' !! file = Some out
    /\ (forall t, tests = Some t -> content <$> fs w' !! testfile_of file = Some t).
Proof.
  intros Halone Hrun.
  destruct (PrintFile_cases file f mode true)
    as [[p Hp]|[[e Hp]|(out & tests & Hgen & Hp)]]; rewrite Hp in Hrun.
  - by rewrite run_thrown in Hrun.
  - by rewrite run_returned in Hrun.
  - exists out, tests. split; [done|].
    pose proof (reach_skip_run file out tests w0 Halone schedule _
                  (or_introl eq_refl)) as Hreach.
    rewrite Hrun in Hreach.
    destruct Hreach as [[=]|[[=]|(cp & gp & Hcp & Hinv)]]. simpl in Hcp, Hinv.
    destruct Hinv as (_ & _ & Hfile & Htest & Hgot & _).
    destruct cp as [| | |e|r]; try done. injection Hcp as <-.
    specialize (Hgot None eq_refl). apply sent_formatted in Hgot.
    split; [by apply Hfile; [|intros []]|].
    intros t Ht. apply Htest; [done| |done]. intros e. by rewrite Hgot.
Qed.

End Printer.

(** ** Deduplication, whatever the order of [range] *)

Lemma entries_range_perm (m : gmap string ()) : entries_range m ≡ₚ (map_to_list m).*1.
Proof. reflexivity. Qed.

(** C6.  For a runtime whose [range] visits every key of a map once,
    [dedupImports] returns a list without repetition that has exactly the
    elements of its input: every distinct import string once.  It is a
    function to lists, with no error and no panic, and gives the empty list
    on the empty list.  The order is that of [range] and nothing more is
    known of it: every arrangement of the distinct elements is returned by
    some such runtime. *)
Theorem dedupImports_distinct (map_range : gmap string () -> list string) :
  (forall m, map_range m ≡ₚ (map_to_list m).*1) ->
  forall imp : list string,
    NoDup (dedupImports map_range imp)
    /\ (forall x, x ∈ dedupImports map_range imp <-> x ∈ imp)
    /\ dedupImports map_range [] = []
    /\ (forall order : list string,
          NoDup order -> (forall x, x ∈ order <-> x ∈ imp) ->
          exists map_range' : gmap string () -> list string,
            (forall m, map_range' m ≡ₚ (map_to_list m).*1)
            /\ dedupImports map_range' imp = order).
Proof.
  intros Hperm imp. split; [by apply NoDup_dedupImports|].
  split; [by apply elem_of_dedupImports|]. split.
  { unfold dedupImports. simpl. rewrite foldl_snoc. simpl.
    apply Permutation_nil_r. by rewrite Hperm, map_to_list_empty. }
  intros order Hnd Hin.
  set (keys := foldl (fun m im => <[im := ()]> m) (∅ : gmap string ()) imp).
  exists (fun m => if decide (m = keys) then order else (map_to_list m).*1).
  split.
  - intros m. destruct (decide (m = keys)) as [->|]; [|done].
    apply NoDup_Permutation; [done|apply NoDup_fst_map_to_list|].
    intros x. rewrite Hin.
    rewrite <- (elem_of_dedupImports entries_range entries_range_perm imp x).
    unfold dedupImports, entries_range. by rewrite foldl_snoc.
  - unfold dedupImports. fold keys. rewrite foldl_snoc. simpl.
    by destruct (decide (keys = keys)).
Qed.

Lemma dedupImports_distinct_witness :
  NoDup (dedupImports entries_range ["fmt"; "io"; "fmt"])
  /\ dedupImports entries_range [] = [].
Proof.
  destruct (dedupImports_distinct entries_range entries_range_perm ["fmt"; "io"; "fmt"])
    as (Hnd & _ & Hnil & _).
  exact (conj Hnd Hnil).
Defined.

(** ** The code at work *)

Lemma quote_char_plain (c : ascii) :
  plain_char c = true -> quote_char c = String c EmptyString.
Proof.
  unfold plain_char, quote_char. intros H.
  apply andb_prop in H as [H Hb]. apply andb_prop in H as [H Hq].
  apply negb_true_iff in Hb, Hq. rewrite Hq, Hb. simpl. by rewrite H.
Qed.

Lemma ascii_Quote_plain (s : string) : plain s = true -> ascii_Quote s = dq +:+ s +:+ dq.
Proof.
  intros Hs. unfold ascii_Quote. f_equal. f_equal.
  induction s as [|c s IH]; [done|]. simpl in *.
  apply andb_prop in Hs as [Hc Hs]. by rewrite quote_char_plain, IH.
Qed.

Lemma generate_repeats_runtime_import_witness :
  exists tests,
    generate ascii_Quote entries_range 32 msgp_user_file 0 =
    Returns
      ("package sample" +:+ nl +:+
       generated_marker +:+ nl +:+ nl +:+
       "import (" +:+ nl +:+
       tab +:+ dq +:+ "github.com/algorand/msgp/msgp" +:+ dq +:+ nl +:+
       tab +:+ dq +:+ "github.com/algorand/msgp/msgp" +:+ dq +:+ nl +:+
       ")" +:+ nl +:+ nl +:+
       "func Foo() {}",
       tests, None).
Proof.
  exact (generate_repeats_runtime_import
           ascii_Quote ascii_Quote_plain entries_range entries_range_perm 32 0).
Defined.

Lemma sample_imports_nonempty :
  Forall (fun im => im <> EmptyString) (myImports sample_file).
Proof. vm_compute. repeat constructor; discriminate. Qed.

Lemma generate_test_buffer_witness :
  exists out tests err,
    generate ascii_Quote entries_range 32 sample_file 32 = Returns (out, tests, err)
    /\ is_Some tests
    /\ String.prefix build_header out = false.
Proof.
  destruct (generate_test_buffer ascii_Quote entries_range entries_range_perm 32
              sample_file 32 sample_imports_nonempty)
    as (out & tests & err & Hgen & Hflag & _ & _ & _ & Hhead).
  exists out, tests, err. split; [exact Hgen|]. split; [|exact Hhead].
  apply Hflag. reflexivity.
Defined.

Lemma PrintFile_generator_error_witness :
  PrintFile ascii_Quote entries_range 32 magenta "out.go" failing_file 32 false =
  Ret (Some "unknown type")
  /\ forall schedule,
       run magenta working_env schedule
         (PrintFile ascii_Quote entries_range 32 magenta "out.go" failing_file 32 false,
          empty_world)
       = (Ret (Some "unknown type"), empty_world).
Proof.
  assert (Forall (fun im => im <> EmptyString) (myImports failing_file)) as Hne.
  { vm_compute. repeat constructor; discriminate. }
  destruct (PrintFile_generator_error ascii_Quote entries_range entries_range_perm 32
              magenta working_env "out.go" failing_file 32 false "unknown type"
              Hne eq_refl)
    as (_ & Hret & _ & _ & Hrun & _).
  split; [exact Hret|]. intros schedule. apply Hrun. reflexivity.
Defined.

Lemma PrintFile_test_format_error_witness :
  exists out tests,
    generate ascii_Quote entries_range 32 sample_file 32 = Returns (out, Some tests, None)
    /\ runs (PrintFile ascii_Quote entries_range 32 magenta "out.go" sample_file 32 true)
         ([did_make_chan 1 0%nat; did_go (goformat_func "out.go" out 0%nat true)] ++
          [did_WriteFile (testfile_of "out.go") tests perm_0600 (Some "disk full")])
         (Returns (Some "disk full")).
Proof.
  destruct (generate ascii_Quote entries_range 32 sample_file 32)
    as [[[out [tests|]] [err|]]|p] eqn:Hgen;
    try (vm_compute in Hgen; discriminate).
  exists out, tests. split; [reflexivity|].
  refine (proj1 (PrintFile_test_format_error ascii_Quote entries_range 32 magenta
                   "out.go" sample_file 32 true out tests
                   [did_WriteFile (testfile_of "out.go") tests perm_0600 (Some "disk full")]
                   "disk full" 0%nat Hgen _)).
  simpl. exists (Some "disk full"), []. split; [reflexivity|]. split; reflexivity.
Defined.

Lemma PrintFile_test_file_path_witness :
  exists out tests,
    generate ascii_Quote entries_range 32 sample_file 32 = Returns (out, Some tests, None)
    /\ Forall (stays_on (strings.TrimSuffix "out.go" ".go" +:+ "_test.go"))
         [did_make_chan 1 0%nat; did_go (goformat_func "out.go" out 0%nat true);
          did_WriteFile (testfile_of "out.go") tests perm_0600 None;
          did_Printf (magenta wrote_format) [testfile_of "out.go"];
          did_recv 0%nat None].
Proof.
  destruct (generate ascii_Quote entries_range 32 sample_file 32)
    as [[[out [tests|]] [err|]]|p] eqn:Hgen;
    try (vm_compute in Hgen; discriminate).
  exists out, tests. split; [reflexivity|].
  refine (proj1 (PrintFile_test_file_path ascii_Quote entries_range 32 magenta
                   "out.go" sample_file 32 true out tests _ (Returns None) Hgen _)).
  unfold PrintFile. rewrite Hgen. simpl.
  exists 0%nat. eexists. split; [reflexivity|].
  exists tt. eexists. split; [reflexivity|].
  exists None. eexists. split; [reflexivity|].
  exists tt. eexists. split; [reflexivity|].
  exists None, []. split; [reflexivity|]. split; reflexivity.
Defined.

(** C9, as the specification has it, fails.  For the target path [out.txt]
    the specification places the test file at [out_test.txt]; the code
    writes it at [out.txt_test.go]. *)
Lemma test_file_not_at_spec_path :
  ~ test_file_at_spec_path ascii_Quote entries_range 32 magenta.
Proof.
  intros Hclaim.
  destruct (generate ascii_Quote entries_range 32 sample_file 32)
    as [[[out [tests|]] [err|]]|p] eqn:Hgen;
    try (vm_compute in Hgen; discriminate).
  assert (runs (PrintFile ascii_Quote entries_range 32 magenta "out.txt" sample_file 32 true)
            (did_make_chan 1 0%nat :: did_go (goformat_func "out.txt" out 0%nat true) ::
             [did_WriteFile (testfile_of "out.txt") tests perm_0600 None] ++
             [did_Printf (magenta wrote_format) [testfile_of "out.txt"];
              did_recv 0%nat None])
            (Returns None)) as Hrun.
  { apply (runs_PrintFile_tests _ _ _ _ _ _ _ _ _ _ _ _ Hgen).
    exists 0%nat, [did_WriteFile (testfile_of "out.txt") tests perm_0600 None], None,
      [did_Printf (magenta wrote_format) [testfile_of "out.txt"]; did_recv 0%nat None].
    split; [reflexivity|]. split.
    - apply runs_format_skip. exists None. split; reflexivity.
    - exists None. split; reflexivity. }
  specialize (Hclaim "out.txt" sample_file 32 true out tests _ _ Hgen Hrun
                (testfile_of "out.txt") tests perm_0600 None).
  assert (testfile_of "out.txt" = spec_test_path "out.txt") as Heq.
  { apply Hclaim. do 2 apply list_elem_of_further. apply list_elem_of_here. }
  vm_compute in Heq. discriminate.
Qed.

(** C8 at work.  The directory [gen] does not exist, so neither file can be
    written.  [PrintFile] returns the error of the test file and prints no
    line for it; no file exists afterwards; and yet the goroutine, whose
    [format] failed in the same way, has printed the line
    [Wrote and formatted] for the implementation file [gen/out.go]. *)
Theorem PrintFile_logs_failed_file :
  let m := run magenta no_directory_env goroutine_first
             (PrintFile ascii_Quote entries_range 32 magenta "gen/out.go" sample_file 32 true,
              empty_world) in
  m.1 = Ret (Some "open gen/out_test.go: no such file or directory")
  /\ fs m.2 = ∅
  /\ chans m.2 = [(1%nat, [Some "open gen/out.go: no such file or directory"])]
  /\ stdout m.2 = [ (magenta wrote_format, ["gen/out.go"]) ].
Proof. vm_compute. by repeat split. Qed.

(** The example of the specification, with the keys of the map taken in
    the order of its entries: the two buffers [generate] returns. *)
Example generate_sample :
  generate ascii_Quote entries_range 32 sample_file 32 =
  Returns
    ("package sample" +:+ nl +:+
     "// Code generated by github.com/algorand/msgp DO NOT EDIT." +:+ nl +:+ nl +:+
     "import (" +:+ nl +:+
     tab +:+ dq +:+ "github.com/algorand/msgp/msgp" +:+ dq +:+ nl +:+
     tab +:+ dq +:+ "fmt" +:+ dq +:+ nl +:+
     ")" +:+ nl +:+ nl +:+
     "func Foo() {}",
     Some
       ("//go:build !skip_msgp_testing" +:+ nl +:+
        "// +build !skip_msgp_testing" +:+ nl +:+ nl +:+
        "package sample" +:+ nl +:+
        "// Code generated by github.com/algorand/msgp DO NOT EDIT." +:+ nl +:+ nl +:+
        "import (" +:+ nl +:+
        tab +:+ dq +:+ "github.com/algorand/msgp/msgp" +:+ dq +:+ nl +:+
        tab +:+ dq +:+ "github.com/algorand/go-algorand/protocol" +:+ dq +:+ nl +:+
        tab +:+ dq +:+ "github.com/algorand/go-algorand/test/partitiontest" +:+ dq +:+ nl +:+
        tab +:+ dq +:+ "testing" +:+ dq +:+ nl +:+
        ")" +:+ nl +:+ nl),
     None).
Proof. vm_compute. reflexivity. Qed.

(** An import with an empty path makes [generate] panic, before the mode is
    looked at and before [PrintTo] is called. *)
Example generate_empty_import_panics (mode : Method) :
  generate ascii_Quote entries_range 32 empty_import_file mode =
  Panics (index_out_of_range (-1) 0).
Proof. vm_compute. reflexivity. Qed.

(** The grouping tool fails after the normalizer's output was written:
    [format] returns the tool's error and the file holds that output. *)
Example format_keeps_normalized_file :
  let '(w, r) := exec magenta grouping_fails_env
                   (format "a.go" "package a" false) empty_world in
  r = Done (Some "gci: cannot parse")
  /\ content <$> fs w !! "a.go" = Some ("// normalized" +:+ nl +:+ "package a").
Proof. vm_compute. by split. Qed.

(** The write of the test file is refused while the implementation file is
    formatted without error: [PrintFile] returns the error of the test file,
    the result of the goroutine is still in the channel, never received, and
    the only line printed is that of the implementation file. *)
Example PrintFile_test_error_not_awaited :
  let m := run magenta readonly_tests_env goroutine_first
             (PrintFile ascii_Quote entries_range 32 magenta "out.go" sample_file 32 true,
              empty_world) in
  m.1 = Ret (Some "open out_test.go: permission denied")
  /\ chans m.2 = [(1%nat, [None])]
  /\ stdout m.2 = [ (magenta wrote_format, ["out.go"]) ]
  /\ is_Some (fs m.2 !! "out.go")
  /\ fs m.2 !! "out_test.go" = None.
Proof. vm_compute. repeat split. by eexists. Qed.

(** ** The further properties at work *)

Lemma dedupImports_length_witness :
  dedupImports entries_range ["fmt"; "io"; "fmt"] ≡ₚ remove_dups ["fmt"; "io"; "fmt"]
  /\ (length (dedupImports entries_range ["fmt"; "io"; "fmt"]) <= 3)%nat.
Proof.
  destruct (dedupImports_length entries_range entries_range_perm ["fmt"; "io"; "fmt"])
    as (Hperm & Hlen & _).
  exact (conj Hperm Hlen).
Defined.

Lemma dedupImports_set_only_witness :
  dedupImports entries_range ["io"; "fmt"; "io"] ≡ₚ dedupImports entries_range ["fmt"; "io"].
Proof.
  destruct (dedupImports_set_only entries_range entries_range_perm ["io"; "fmt"; "io"])
    as (Hsame & _).
  apply Hsame. intros x. rewrite !elem_of_cons, !elem_of_nil. tauto.
Defined.

Lemma testfile_of_apart_witness :
  testfile_of "out.txt" = "out.txt" +:+ "_test.go"
  /\ testfile_of ("out.txt" +:+ ".go") = testfile_of "out.txt".
Proof.
  destruct (testfile_of_apart "out.txt") as (_ & _ & Hplain).
  apply Hplain. vm_compute. reflexivity.
Defined.

Lemma generate_panic_iff_witness :
  generate ascii_Quote entries_range 32 empty_import_file 0 =
  Panics (index_out_of_range (-1) 0).
Proof.
  destruct (generate_panic_iff ascii_Quote entries_range entries_range_perm 32
              magenta working_env "out.go" empty_import_file 0 false)
    as [[_ Hpanics] _].
  apply Hpanics. apply Exists_cons_hd. split; reflexivity.
Defined.

Lemma generate_lists_every_import_witness :
  exists out tests err pre post,
    generate ascii_Quote entries_range 32 sample_file 0 = Returns (out, tests, err)
    /\ out = pre +:+ tab +:+ ascii_Quote "github.com/algorand/msgp/msgp" +:+ nl +:+ post.
Proof.
  destruct (generate_lists_every_import ascii_Quote entries_range entries_range_perm 32
              sample_file 0 sample_imports_nonempty)
    as (out & tests & err & Hgen & (pre & post & Hout) & _).
  exists out, tests, err, pre, post. exact (conj Hgen Hout).
Defined.

Lemma PrintFile_goroutine_never_waits_witness :
  (length
     (goroutines
        (run magenta readonly_tests_env [caller; caller; caller]
           (PrintFile ascii_Quote entries_range 32%Z magenta "out.go" sample_file 32%Z
              true,
            empty_world)).2) <= 1)%nat.
Proof.
  destruct (PrintFile_goroutine_never_waits ascii_Quote entries_range 32 magenta
              readonly_tests_env "out.go" sample_file 32 true [caller; caller; caller]
              empty_world eq_refl)
    as (Hone & _).
  exact Hone.
Defined.

Lemma PrintFile_completes_witness :
  is_final
    (run magenta readonly_tests_env ([goroutine 0; caller] ++ completion)
       (PrintFile ascii_Quote entries_range 32 magenta "out.go" sample_file 32 true,
        empty_world)).1.
Proof.
  destruct (PrintFile_completes ascii_Quote entries_range 32 magenta
              readonly_tests_env "out.go" sample_file 32 true [goroutine 0; caller]
              empty_world eq_refl)
    as (Hfinal & _).
  exact Hfinal.
Defined.

Lemma PrintFile_skip_success_on_disk_witness :
  exists out tests,
    generate ascii_Quote entries_range 32 sample_file 32 = Returns (out, tests, None)
    /\ content <$>
         fs (run magenta working_env goroutine_first
               (PrintFile ascii_Quote entries_range 32 magenta "out.go" sample_file 32 true,
                empty_world)).2 !! "out.go" = Some out.
Proof.
  destruct (PrintFile_skip_success_on_disk ascii_Quote entries_range 32 magenta
              working_env "out.go" sample_file 32 goroutine_first empty_world
              (run magenta working_env goroutine_first
                 (PrintFile ascii_Quote entries_range 32 magenta "out.go" sample_file 32
                    true, empty_world)).2
              eq_refl)
    as (out & tests & Hgen & Hfile & _).
  { vm_compute. reflexivity. }
  exists out, tests. exact (conj Hgen Hfile).
Defined.
